(** * IOHexperimenter: the CEC utilities and the query schema

    A shallow embedding of [include/ioh/problem/cec/cec_utils.hpp]
    (class [CecUtils]) and of the [IOHquery] JSON schema, with the
    properties of the transformation pipeline, of the static-table
    loaders and of the query contract.

    Conventions.
    - A C++ [double] is a primitive binary64 float ([PrimFloat.float]);
      it has one NaN, so the payload and the signalling bit of a NaN are
      not represented.
    - A C++ [int] is an integer of [Z] in the range of 32 bits.  The
      products that give the size of a table to read ([dim * dim],
      [dim * dim * coeff], [coeff * dim]) are wrapped to 32 bits
      ([int_wrap]), which is what the compiled code computes when they
      overflow.  The index arithmetic ([i + 1], [fnNumber - 1],
      [i * nx + j]) is carried out in [Z]: it leaves the range of [int]
      only on vectors of more than 2^31 elements.
    - [std::vector<T>] is [list T]; [v.at(i)] is bounds-checked and
      throws [std::out_of_range], which is an outcome of its own.
    - A reference parameter that the function updates in place is passed
      in and returned.  When a call throws, the partly updated vector is
      not kept: no property here is about it. *)

From Stdlib Require Import ZArith Lia Bool String Ascii QArith DecimalString.
From Stdlib Require Import Floats.
From Stdlib Require DecimalPos DecimalZ.
From stdpp Require Import base list.

#[local] Open Scope Z_scope.

(** ** C++ outcomes: normal return or a propagating exception *)

Module Cpp.

Inductive exn : Set :=
| std_out_of_range.

Inductive outcome (A : Type) : Type :=
| Ok (a : A)
| Throw (e : exn).

Arguments Ok {A} a.
Arguments Throw {A} e.

Definition bind {A B : Type} (m : outcome A) (k : A -> outcome B) : outcome B :=
  match m with
  | Ok a => k a
  | Throw e => Throw e
  end.

Abbreviation vec := (list float).

(** [v.at(i)] used as an rvalue.  The [int] index is converted to
    [size_t]; a negative one becomes larger than any size. *)
Definition vec_at {A : Type} (v : list A) (i : Z) : outcome A :=
  if 0 <=? i then
    match v !! Z.to_nat i with
    | Some a => Ok a
    | None => Throw std_out_of_range
    end
  else Throw std_out_of_range.

(** [v.at(i) = a]: the same bounds check, then the store. *)
Definition vec_set {A : Type} (v : list A) (i : Z) (a : A) : outcome (list A) :=
  if (0 <=? i) && (i <? Z.of_nat (length v)) then Ok (<[Z.to_nat i := a]> v)
  else Throw std_out_of_range.

(** [count] iterations of a loop body, the loop variable starting at [i]
    and incremented after each one. *)
Fixpoint for_range {S : Type} (count : nat) (i : Z)
    (body : Z -> S -> outcome S) (s : S) : outcome S :=
  match count with
  | O => Ok s
  | Datatypes.S count' => bind (body i s) (for_range count' (i + 1) body)
  end.

(** [for (int i = 0; i < nx; i++) body]: no iteration when [nx <= 0]. *)
Definition for_int {S : Type} (nx : Z) (body : Z -> S -> outcome S) (s : S)
    : outcome S :=
  for_range (Z.to_nat nx) 0 body s.

(** *** What the language leaves open

    Two things the code can run into have no value fixed by C++: a read
    of a built-in array outside its bounds, and the conversion to [int]
    of a [double] whose truncation does not fit.  The model takes what
    is obtained there as parameters; every theorem holds for all of
    them.  (A third one, the local [double] that a loader reads before
    anything was stored in it, is a parameter of each call: see
    [read_loop].) *)
Class Unspecified : Type := {
  past_end_int : Z -> Z;
  past_end_double : Z -> float;
  int_of_unrepresentable : float -> Z
}.

(** [a[i]] on a built-in array. *)
Definition array_get {A : Type} (past_end : Z -> A) (a : list A) (i : Z) : A :=
  if 0 <=? i then
    match a !! Z.to_nat i with
    | Some v => v
    | None => past_end i
    end
  else past_end i.

Definition INT_MIN : Z := - 2 ^ 31.
Definition INT_MAX : Z := 2 ^ 31 - 1.

(** The [int] that a product becomes: its value modulo 2^32, taken
    between [INT_MIN] and [INT_MAX]. *)
Definition int_wrap (z : Z) : Z := (z + 2 ^ 31) mod 2 ^ 32 - 2 ^ 31.

(** The implicit conversion [double -> int]: truncation toward zero. *)
Definition double_to_int `{Unspecified} (d : float) : Z :=
  match Prim2SF d with
  | S754_zero _ => 0
  | S754_finite sign m e =>
      let magnitude := if 0 <=? e then Z.pos m * 2 ^ e else Z.pos m / 2 ^ (- e) in
      let v := if sign then - magnitude else magnitude in
      if (INT_MIN <=? v) && (v <=? INT_MAX) then v else int_of_unrepresentable d
  | _ => int_of_unrepresentable d
  end.

(** [std::to_string(int)]. *)
Definition to_string (z : Z) : string := NilZero.string_of_int (Z.to_int z).

(** *** Text files of numbers and [std::ifstream]

    A table file is a sequence of numerals separated by white space,
    each numeral within the range of [double] (on any other field the
    extraction fails; such files are not tables and are not modelled).
    What the loaders can observe of it is the sequence of the numbers
    and whether white space (for instance a final newline) follows the
    last number: [operator>>] skips white space before a number, [peek]
    does not. *)
Record table : Type := {
  numbers : list float;
  trailing_space : bool
}.

(** The files that can be opened, by name. *)
Definition filesystem : Type := string -> option table.

(** An input stream: [good] is [rdstate() == goodbit]. *)
Record ifstream : Type := {
  good : bool;
  pending : list float;
  pending_space : bool
}.

(** [open]: a file that cannot be opened leaves the stream with [failbit]. *)
Definition ifstream_open (fs : filesystem) (name : string) : ifstream :=
  match fs name with
  | Some t => {| good := true; pending := numbers t; pending_space := trailing_space t |}
  | None => {| good := false; pending := []; pending_space := false |}
  end.

(** [!stream], that is [fail()]: after [open] only a failed open sets it. *)
Definition ifstream_not (s : ifstream) : bool := negb (good s).

(** [stream.peek() == EOF].  [peek] returns [EOF] when the stream is not
    good, and otherwise when no character is left; white space is a
    character like any other. *)
Definition peek_is_EOF (s : ifstream) : bool :=
  negb (good s) ||
  match pending s with
  | [] => negb (pending_space s)
  | _ :: _ => false
  end.

(** [stream >> var] for a [double] variable holding [var].  The sentry
    skips white space; when it meets the end of the file it sets
    [failbit | eofbit] and nothing is stored in the variable.  Reading a
    number that the end of the file terminates sets [eofbit]. *)
Definition extract (s : ifstream) (var : float) : float * ifstream :=
  if good s then
    match pending s with
    | d :: rest =>
        (d, {| good := match rest with [] => pending_space s | _ :: _ => true end;
               pending := rest;
               pending_space := pending_space s |})
    | [] => (var, {| good := false; pending := []; pending_space := false |})
    end
  else (var, s).

(** What a function writes on the console. *)
Inductive output : Set :=
| cout (line : string)
| perror (message : string).

End Cpp.

Import Cpp.

Notation "'let*' x := m 'in' k" := (bind m (fun x => k))
  (at level 10, x name, m at level 100, k at level 200,
   format "'[v' 'let*'  x  :=  m  'in' '/' k ']'").

(** ** The transformation pipeline of [CecUtils] *)

Module CecUtils.

Definition shiftfunc (x Os : vec) (nx : Z) : outcome vec :=
  for_int nx (fun i x =>
    let* xi := vec_at x i in
    let* oi := vec_at Os i in
    vec_set x i (xi - oi)%float) x.

Definition rotatefunc (x Mr : vec) (nx : Z) : outcome vec :=
  let cacheX := x in
  for_int nx (fun i x =>
    let* x := vec_set x i 0%float in
    for_int nx (fun j x =>
      let* xi := vec_at x i in
      let* cj := vec_at cacheX j in
      let* m := vec_at Mr (i * nx + j) in
      vec_set x i (xi + cj * m)%float) x) x.

Definition sr_func (x Os Mr : vec) (sh_rate : float) (s_flag r_flag : bool)
    (nx : Z) : outcome vec :=
  let* x := (if s_flag then shiftfunc x Os nx else Ok x) in
  let* x := for_int nx (fun i x =>
              let* xi := vec_at x i in
              vec_set x i (xi * sh_rate)%float) x in
  if r_flag then rotatefunc x Mr nx else Ok x.

Definition fnBiasDict : list float :=
  [100; 1100; 700; 1900; 1700; 1600; 2100; 2200; 2400; 2500]%float.

Definition getFunctionBias `{Unspecified} (biasFlag fnNumber : Z) : float :=
  if negb (biasFlag =? 0) then array_get past_end_double fnBiasDict (fnNumber - 1)
  else 0%float.

(** The table [cf_nums] (named [coeffs] in [loadOShiftData]) of the 2015
    suite. *)
Definition cf_nums : list Z := [0; 1; 1; 1; 1; 1; 1; 1; 1; 3; 3; 5; 5; 5; 7; 10].

(** The reading loop shared by the three loaders:
[[
    for (int i = 0; i < Size; ++i) {
        if (file.peek() == EOF) break;
        double data;
        file >> data;
        out->push_back(data);
    }
]]
    [convert] is the conversion that [push_back] applies to [data].

    [data] is declared without an initial value.  Its storage is the
    same in every iteration, so when an extraction stores nothing the
    variable still holds what the last extraction stored, and before any
    extraction what the stack held when the loader was called.  The
    argument [data] of the loop is this content; the loaders take the
    content on entry as their argument [stale], which is any value and
    differs from call to call. *)
Fixpoint read_loop {A : Type} (convert : float -> A)
    (count : nat) (s : ifstream) (data : float) (out : list A)
    : list A * ifstream :=
  match count with
  | O => (out, s)
  | S count' =>
      if peek_is_EOF s then (out, s)
      else
        let '(data, s') := extract s data in
        read_loop convert count' s' data (out ++ [convert data])
  end.

(** [funcTreshold] and [coeff] as [loadMatrixData] sets them. *)
Definition matrix_params `{Unspecified} (fn cecVersion : Z) : Z * Z :=
  if cecVersion =? 2014 then (23, 10)
  else if cecVersion =? 2015 then (-1, array_get past_end_int cf_nums fn)
  else if cecVersion =? 2017 then (20, 10)
  else if cecVersion =? 2019 then (100, 1)
  else if cecVersion =? 2021 then (7, 10)
  else if cecVersion =? 2022 then (9, 12)
  else (-1, -1).

Definition MatrixSize `{Unspecified} (dim fn cecVersion : Z) : Z :=
  let '(funcTreshold, coeff) := matrix_params fn cecVersion in
  if fn <? funcTreshold then int_wrap (dim * dim)
  else int_wrap (int_wrap (dim * dim) * coeff).

Definition matrix_FileName (dataPath : string) (dim fn cecVersion : Z) : string :=
  (dataPath ++ "/cec" ++ to_string cecVersion ++ "/M_" ++ to_string fn
     ++ "_D" ++ to_string dim ++ ".txt")%string.

Definition loadMatrixData `{Unspecified} (fs : filesystem) (stale : float)
    (Mr : vec) (dataPath : string) (dim fn cecVersion : Z)
    : outcome (vec * list output) :=
  let FileName := matrix_FileName dataPath dim fn cecVersion in
  let fptMData := ifstream_open fs FileName in
  let console :=
    if ifstream_not fptMData
    then [cout FileName; perror "Error: Cannot open input file for reading"]
    else [] in
  let '(Mr, _) :=
    read_loop id (Z.to_nat (MatrixSize dim fn cecVersion)) fptMData stale Mr in
  Ok (Mr, console).

(** [funcTreshold] and [coeff] as [loadOShiftData] sets them: both start
    at 0, and there is no case for 2021. *)
Definition oshift_params `{Unspecified} (fn cecVersion : Z) : Z * Z :=
  if cecVersion =? 2014 then (23, 10)
  else if cecVersion =? 2015 then (0, array_get past_end_int cf_nums fn)
  else if cecVersion =? 2017 then (20, 10)
  else if cecVersion =? 2019 then (100, 1)
  else if cecVersion =? 2022 then (9, 12)
  else (-1, -1).

(** The product of [OShiftSize] is that of the branch which reads
    nothing; its value is not used. *)
Definition OShiftSize `{Unspecified} (dim fn cecVersion : Z) : Z :=
  let '(funcTreshold, coeff) := oshift_params fn cecVersion in
  if fn <? funcTreshold then dim else coeff * dim.

Definition oshift_FileName (dataPath : string) (fn cecVersion : Z) : string :=
  (dataPath ++ "/cec" ++ to_string cecVersion ++ "/shift_data_"
     ++ to_string fn ++ ".txt")%string.

Definition loadOShiftData `{Unspecified} (fs : filesystem) (stale : float)
    (Os : vec) (dataPath : string) (dim fn cecVersion : Z)
    : outcome (vec * list output) :=
  let '(funcTreshold, _) := oshift_params fn cecVersion in
  let FileName := oshift_FileName dataPath fn cecVersion in
  let fptOShiftData := ifstream_open fs FileName in
  let console :=
    if ifstream_not fptOShiftData
    then [perror "Error: Cannot open input file for reading"]
    else [] in
  let Os :=
    if fn <? funcTreshold
    then fst (read_loop id (Z.to_nat (OShiftSize dim fn cecVersion))
                fptOShiftData stale Os)
    else Os in
  Ok (Os, console).

(** [coeff] and [shuffleFlag] as [loadShuffleData] sets them. *)
Definition shuffle_coeff `{Unspecified} (fn cecVersion : Z) : Z :=
  if (cecVersion =? 2014) || (cecVersion =? 2017) || (cecVersion =? 2019)
     || (cecVersion =? 2021) || (cecVersion =? 2022) then 10
  else if cecVersion =? 2015 then array_get past_end_int cf_nums fn
  else 0.

Definition shuffleFlag (fn cecVersion : Z) : bool :=
  if cecVersion =? 2014 then (17 <=? fn) && (fn <=? 22)
  else if cecVersion =? 2015 then false
  else if cecVersion =? 2017 then (11 <=? fn) && (fn <=? 20)
  else if cecVersion =? 2021 then (5 <=? fn) && (fn <=? 7)
  else if cecVersion =? 2022 then (6 <=? fn) && (fn <=? 8)
  else false.

Definition ShuffleSize `{Unspecified} (dim fn cecVersion : Z) : Z :=
  if shuffleFlag fn cecVersion then dim
  else int_wrap (shuffle_coeff fn cecVersion * dim).

Definition shuffle_FileName (dataPath : string) (dim fn cecVersion : Z) : string :=
  (dataPath ++ "/cec" ++ to_string cecVersion ++ "/shuffle_data_"
     ++ to_string fn ++ "_D" ++ to_string dim ++ ".txt")%string.

Definition loadShuffleData `{Unspecified} (fs : filesystem) (stale : float)
    (SS : list Z) (dataPath : string) (dim fn cecVersion : Z)
    : outcome (list Z * list output) :=
  let FileName := shuffle_FileName dataPath dim fn cecVersion in
  let fptShuffleData := ifstream_open fs FileName in
  let console :=
    if ifstream_not fptShuffleData
    then [perror "Error: Cannot open input file for reading"]
    else [] in
  let '(SS, _) :=
    read_loop double_to_int (Z.to_nat (ShuffleSize dim fn cecVersion))
      fptShuffleData stale SS in
  Ok (SS, console).

End CecUtils.

Import CecUtils.

(** ** The query schema

    [IOHquery] is a JSON Schema (draft-07) document written in YAML.  It
    is embedded as a value of [schema], with the keywords the document
    uses, and read by [validate], the draft-07 validation of an instance
    against a schema.  [$schema], [id] and [format] assert nothing in
    draft-07 and are left out. *)

Module Json.

#[local] Unset Elimination Schemes.

Inductive json : Type :=
| JNull
| JBool (b : bool)
| JNumber (q : Q)
| JString (s : string)
| JArray (elements : list json)
| JObject (members : list (string * json)).

Inductive jtype : Set :=
| TNull | TBoolean | TObject | TArray | TNumber | TInteger | TString.

(** A schema object: one field per keyword, [None] or [[]] when the
    keyword is absent.  The [enum] and [const] of the document hold
    strings only. *)
Inductive schema : Type :=
| Schema (type_ : option jtype)
         (enum_ : option (list string))
         (const_ : option string)
         (properties_ : list (string * schema))
         (required_ : list string)
         (items_ : option schema)
         (minItems_ : option nat)
         (if_ : option schema)
         (then_ : option schema).

#[local] Set Elimination Schemes.

Definition is_integer (q : Q) : bool :=
  (Z.pos (Qden (Qred q)) =? 1)%Z.

Definition has_type (t : jtype) (v : json) : bool :=
  match t, v with
  | TNull, JNull => true
  | TBoolean, JBool _ => true
  | TObject, JObject _ => true
  | TArray, JArray _ => true
  | TNumber, JNumber _ => true
  | TInteger, JNumber q => is_integer q
  | TString, JString _ => true
  | _, _ => false
  end.

Definition has_member (name : string) (members : list (string * json)) : bool :=
  existsb (fun m => String.eqb (fst m) name) members.

(** Each keyword constrains the instances of the kind it applies to and
    accepts all others; a schema accepts an instance when all its
    keywords do. *)
Fixpoint validate (s : schema) (v : json) {struct s} : bool :=
  match s with
  | Schema type_ enum_ const_ properties_ required_ items_ minItems_ if_ then_ =>
      match type_ with
      | Some t => has_type t v
      | None => true
      end
      && match enum_ with
         | Some allowed =>
             match v with
             | JString x => existsb (String.eqb x) allowed
             | _ => false
             end
         | None => true
         end
      && match const_ with
         | Some c =>
             match v with
             | JString x => String.eqb x c
             | _ => false
             end
         | None => true
         end
      && match v with
         | JObject members =>
             (fix each_property (ps : list (string * schema)) : bool :=
                match ps with
                | [] => true
                | (name, sub) :: ps' =>
                    forallb (fun m => if String.eqb (fst m) name
                                      then validate sub (snd m) else true) members
                    && each_property ps'
                end) properties_
             && forallb (fun name => has_member name members) required_
         | _ => true
         end
      && match v with
         | JArray elements =>
             match items_ with
             | Some sub => forallb (validate sub) elements
             | None => true
             end
             && match minItems_ with
                | Some n => (n <=? length elements)%nat
                | None => true
                end
         | _ => true
         end
      && match if_ with
         | Some cond =>
             if validate cond v
             then match then_ with
                  | Some sub => validate sub v
                  | None => true
                  end
             else true
         | None => true
         end
  end.

(** The schema with no keyword; the functions below set one keyword each. *)
Definition any : schema := Schema None None None [] [] None None None None.

Definition with_type (t : jtype) (s : schema) : schema :=
  match s with Schema _ e c p r i m f th => Schema (Some t) e c p r i m f th end.
Definition with_enum (l : list string) (s : schema) : schema :=
  match s with Schema t _ c p r i m f th => Schema t (Some l) c p r i m f th end.
Definition with_const (x : string) (s : schema) : schema :=
  match s with Schema t e _ p r i m f th => Schema t e (Some x) p r i m f th end.
Definition with_properties (l : list (string * schema)) (s : schema) : schema :=
  match s with Schema t e c _ r i m f th => Schema t e c l r i m f th end.
Definition with_required (l : list string) (s : schema) : schema :=
  match s with Schema t e c p _ i m f th => Schema t e c p l i m f th end.
Definition with_items (x : schema) (s : schema) : schema :=
  match s with Schema t e c p r _ m f th => Schema t e c p r (Some x) m f th end.
Definition with_minItems (n : nat) (s : schema) : schema :=
  match s with Schema t e c p r i _ f th => Schema t e c p r i (Some n) f th end.

End Json.

Import Json.

Module QuerySchema.

(** The document, keyword by keyword as it is indented: [if] and [then]
    are entries of [properties], next to [query_type], [id], [timestamp]
    and [remarks]; [minItems] is a keyword of the [items] schema. *)
Definition IOHquery : schema :=
  with_type TObject
    (with_properties
       [ ("query_type",
          with_type TString (with_enum ["call"; "new_run"; "stop"] any));
         ("if",
          with_properties [("query_type", with_const "call" any)] any);
         ("then",
          with_properties
            [("solution",
              with_type TArray
                (with_items (with_type TNumber (with_minItems 1 any)) any))]
            (with_required ["solution"] any));
         ("id", with_type TInteger any);
         ("timestamp", with_type TString any);
         ("remarks", with_type TString any) ]%string
       (with_required ["query_type"%string] any)).

End QuerySchema.

Import QuerySchema.

(** ** The pipeline as the specification words it

    "In fixed order: (1) optional shift, subtract [shift[i]] elementwise;
    (2) uniform scale, multiply every coordinate by a fixed shrink-rate
    constant; (3) optional rotation, the matrix-vector product
    [rotation . x]."  Each stage rewrites the first [n] coordinates and
    keeps the others. *)

Module Pipeline.

(** The first [n] coordinates of [x] replaced by [f 0 .. f (n-1)]. *)
Definition prefix_map (n : nat) (f : nat -> float) (x : vec) : vec :=
  (f <$> seq 0 n) ++ drop n x.

Definition shifted (n : nat) (x Os : vec) : vec :=
  prefix_map n (fun i => nth i x 0 - nth i Os 0)%float x.

Definition scaled (n : nat) (sh_rate : float) (x : vec) : vec :=
  prefix_map n (fun i => nth i x 0 * sh_rate)%float x.

(** Row [i] of the matrix times the vector, summed from the left
    starting at zero. *)
Definition row_sum (n : nat) (x Mr : vec) (i : nat) : float :=
  foldl (fun acc j => acc + nth j x 0 * nth (i * n + j) Mr 0)%float 0%float
        (seq 0 n).

Definition rotated (n : nat) (x Mr : vec) : vec :=
  prefix_map n (row_sum n x Mr) x.

Definition sr_spec (x Os Mr : vec) (sh_rate : float) (s_flag r_flag : bool)
    (nx : Z) : vec :=
  let n := Z.to_nat nx in
  let x1 := if s_flag then shifted n x Os else x in
  let x2 := scaled n sh_rate x1 in
  if r_flag then rotated n x2 Mr else x2.

(** The sizes under which no access of [sr_func] is out of range. *)
Definition in_range (x Os Mr : vec) (s_flag r_flag : bool) (nx : Z) : Prop :=
  nx <= Z.of_nat (length x)
  /\ (s_flag = true -> nx <= Z.of_nat (length Os))
  /\ (r_flag = true -> nx * nx <= Z.of_nat (length Mr)).

End Pipeline.

Import Pipeline.

(** ** The query contract as the specification words it

    "Required field [query_type] in {call, new_run, stop}.  When
    [query_type == call], requires [solution: array<number>] with length
    at least 1." *)

Module QueryContract.

Definition member (name : string) (members : list (string * json)) : option json :=
  snd <$> List.find (fun m => String.eqb (fst m) name) members.

Definition is_number (v : json) : bool :=
  match v with
  | JNumber _ => true
  | _ => false
  end.

Definition well_formed_query (v : json) : bool :=
  match v with
  | JObject members =>
      match member "query_type" members with
      | Some (JString query_type) =>
          if String.eqb query_type "call" then
            match member "solution" members with
            | Some (JArray solution) =>
                (1 <=? length solution)%nat && forallb is_number solution
            | _ => false
            end
          else String.eqb query_type "new_run" || String.eqb query_type "stop"
      | _ => false
      end
  | _ => false
  end.

(** The queries of the examples. *)
Definition call_without_solution : json :=
  JObject [("query_type", JString "call")]%string.

Definition call_with_empty_solution : json :=
  JObject [("query_type", JString "call"); ("solution", JArray [])]%string.

Definition minimal_call : json :=
  JObject [("query_type", JString "call");
           ("solution", JArray [JNumber 10; JNumber 10])]%string.

End QueryContract.

Import QueryContract.

(** ** The reply schema

    [server/ioh-reply.schema.yaml], embedded like the query schema.  Its
    [properties] mapping writes the keys [if] and [then] twice, once for
    the [value] replies and once for the [error] replies.  [IOHreply]
    lists the entries as the document does; [IOHreply_last_key] is what a
    YAML reader that keeps the last of two equal keys hands over. *)

Module ReplySchema.

Definition reply_type_schema : schema :=
  with_type TString (with_enum ["value"; "ack"; "error"]%string any).

Definition if_value : schema :=
  with_properties [("reply_type", with_const "value" any)]%string any.

Definition then_value : schema :=
  with_properties
    [("value", with_type TNumber any);
     ("solution",
      with_type TArray
        (with_items (with_type TNumber (with_minItems 1 any)) any))]%string
    (with_required ["value"%string] any).

Definition if_error : schema :=
  with_properties [("reply_type", with_const "error" any)]%string any.

Definition then_error : schema :=
  with_properties
    [("code", with_type TInteger any);
     ("message", with_type TString any)]%string
    (with_required ["message"%string] any).

Definition IOHreply : schema :=
  with_type TObject
    (with_properties
       [ ("reply_type", reply_type_schema);
         ("if", if_value);
         ("then", then_value);
         ("if", if_error);
         ("then", then_error);
         ("id", with_type TInteger any);
         ("timestamp", with_type TString any);
         ("remarks", with_type TString any) ]%string
       (with_required ["reply_type"%string] any)).

Definition IOHreply_last_key : schema :=
  with_type TObject
    (with_properties
       [ ("reply_type", reply_type_schema);
         ("if", if_error);
         ("then", then_error);
         ("id", with_type TInteger any);
         ("timestamp", with_type TString any);
         ("remarks", with_type TString any) ]%string
       (with_required ["reply_type"%string] any)).

(** The replies of the examples. *)
Definition error_without_message : json :=
  JObject [("reply_type", JString "error"); ("id", JNumber 7)]%string.

Definition value_reply : json :=
  JObject [("reply_type", JString "value"); ("value", JNumber (3 # 2));
           ("id", JNumber 7); ("remarks", JString "ok")]%string.

End ReplySchema.

Import ReplySchema.

(** The complete [call] query of the header of the query schema. *)
Definition complete_call : json :=
  JObject [("query_type", JString "call");
           ("solution", JArray [JNumber 10; JNumber 10]);
           ("id", JNumber 1);
           ("timestamp", JString "2021-12-21T13:40:31-01:00Z");
           ("remarks", JString "Pandeora solver v0.0.1")]%string.

(** ** Characters of a decimal numeral

    What [std::to_string] writes for an [int]: a minus sign and digits. *)
Definition sign_or_digit (c : ascii) : bool :=
  existsb (Ascii.eqb c) (list_ascii_of_string "-0123456789").

Fixpoint all_chars (P : ascii -> bool) (s : string) : bool :=
  match s with
  | EmptyString => true
  | String c s' => P c && all_chars P s'
  end.

(** ** The scales of the histogram logger *)

Module LinearRealScale.

(** Modelled from the spec: the class [LinearRealScale], of which the
    sources hold the Python signatures only ([ioh/iohcpp/logger/eah.pyi]:
    the constructor from [min], [max] and [size], and [bounds], [index],
    [step]).  Section 4.3 of the specification gives the linear scale:
    "bucket width [w = (max - min) / size];
    [index(v) = clamp(floor((v - min) / w), 0, size-1)];
    [bounds(i) = (min + i*w, min + (i+1)*w)]", computed here on doubles.
    The logarithmic scales are described there without formulas and the
    rounding of the integer ones is left open: they are not modelled. *)
Record t : Type := {
  min : float;
  max : float;
  size : Z
}.

(** Modelled from the spec: the conversion of a bin index or of [size],
    which are not negative, to a double. *)
Definition of_index (i : Z) : float := PrimFloat.of_uint63 (Uint63Axioms.of_Z i).

(** Modelled from the spec: [w = (max - min) / size]. *)
Definition step (s : t) : float := ((max s - min s) / of_index (size s))%float.

(** Modelled from the spec: [bounds(i) = (min + i*w, min + (i+1)*w)]. *)
Definition bounds (s : t) (i : Z) : float * float :=
  ((min s + of_index i * step s)%float,
   (min s + of_index (i + 1) * step s)%float).

(** Modelled from the spec: [floor] of a finite double, as an integer. *)
Definition floor (x : float) : option Z :=
  match Prim2SF x with
  | S754_zero _ => Some 0
  | S754_finite sign m e =>
      let z := if sign then Z.neg m else Z.pos m in
      Some (if 0 <=? e then z * 2 ^ e else z / 2 ^ (- e))
  | _ => None
  end.

(** Modelled from the spec: [clamp(z, lo, hi)]. *)
Definition clamp (z lo hi : Z) : Z := Z.max lo (Z.min z hi).

(** Modelled from the spec:
    [index(v) = clamp(floor((v - min) / w), 0, size-1)].  An infinite
    quotient is clamped to the end it lies beyond; the specification
    does not say what the index of a NaN quotient is, and it is [None]
    here. *)
Definition index (s : t) (v : float) : option Z :=
  let q := ((v - min s) / step s)%float in
  match Prim2SF q with
  | S754_nan => None
  | S754_infinity true => Some 0
  | S754_infinity false => Some (size s - 1)
  | _ => option_map (fun z => clamp z 0 (size s - 1)) (floor q)
  end.

(** The scale of the example of section 8 of the specification,
    [LinearRealScale(min=0, max=100, size=10)], and the scale
    [LinearRealScale(min=0, max=1, size=100)]. *)
Definition percent : t := {| min := 0; max := 100; size := 10 |}.
Definition hundredths : t := {| min := 0; max := 1; size := 100 |}.

End LinearRealScale.

(** ** The loaders' count

    [m] numbers, then white space or not: how many values a loop of at
    most [S] iterations appends. *)
Definition appended (S : Z) (t : table) : nat :=
  Nat.min (Z.to_nat S)
          (length (numbers t) + if trailing_space t then 1 else 0).

(** The values themselves: the first [count] numbers and, when they run
    out first and white space follows the last one, the variable as the
    failed extraction left it: the last number read, or [stale] when the
    file holds no number. *)
Definition values_read {A : Type} (convert : float -> A)
    (count : nat) (t : table) (stale : float) : list A :=
  (convert <$> take count (numbers t))
  ++ (if trailing_space t && (length (numbers t) <? count)%nat
      then [convert (List.last (numbers t) stale)] else []).

(** The values of [Unspecified] that the examples run with. *)
Definition sample_machine : Unspecified :=
  {| past_end_int := fun _ => 0;
     past_end_double := fun _ => 0%float;
     int_of_unrepresentable := fun _ => INT_MIN |}.

(** A data directory with no file in it. *)
Definition no_files : filesystem := fun _ => None.

(** A data directory whose only file is [data/cec2022/M_1_D2.txt], with
    the text ["1 0\n0\n"]: three numbers where four are expected, and a
    final newline. *)
Definition short_matrix_file : filesystem :=
  fun name =>
    if String.eqb name "data/cec2022/M_1_D2.txt"
    then Some {| numbers := [1; 0; 0]%float; trailing_space := true |}
    else None.

(** A data directory whose only file is [data/cec2022/shift_data_9.txt],
    holding twenty-four numbers. *)
Definition composite_shift_file : filesystem :=
  fun name =>
    if String.eqb name "data/cec2022/shift_data_9.txt"
    then Some {| numbers := repeat 1%float 24; trailing_space := true |}
    else None.

(** A data directory with the two tables of function 1 of the 2022
    suite in dimension 2: the shift table (the file serves every
    dimension and is longer than needed) and the identity matrix. *)
Definition complete_files : filesystem :=
  fun name =>
    if String.eqb name "data/cec2022/shift_data_1.txt"
    then Some {| numbers := [5; -3; 7; 9]%float; trailing_space := true |}
    else if String.eqb name "data/cec2022/M_1_D2.txt"
    then Some {| numbers := [1; 0; 0; 1]%float; trailing_space := true |}
    else if String.eqb name "data/cec2022/shuffle_data_6_D2.txt"
    then Some {| numbers := [2; 1]%float; trailing_space := false |}
    else None.

(** A data directory where every name opens on the same eight numbers. *)
Definition every_file : filesystem :=
  fun _ => Some {| numbers := [1; 2; 3; 4; 5; 6; 7; 8]%float;
                   trailing_space := true |}.

(** * Properties *)

(** ** Loops *)

Section Loops.

Context {S : Type}.
Implicit Types (body : Z -> S -> outcome S) (s t : S).

Lemma bind_Ok {A B : Type} (m : outcome A) (k : A -> outcome B) (b : B) :
  bind m k = Ok b -> exists a, m = Ok a /\ k a = Ok b.
Proof. destruct m as [a|e]; simpl; [eauto | discriminate]. Qed.

Lemma exn_unique (e : exn) : e = std_out_of_range.
Proof. by destruct e. Qed.

(** Hoare-style rule: an invariant indexed by the loop variable. *)
Lemma for_range_invariant (P : nat -> S -> Prop) body (n k : nat) s :
  P k s ->
  (forall i t, (k <= i < k + n)%nat -> P i t ->
     exists t', body (Z.of_nat i) t = Ok t' /\ P (Datatypes.S i) t') ->
  exists t', for_range n (Z.of_nat k) body s = Ok t' /\ P (k + n)%nat t'.
Proof.
  revert k s. induction n as [|n IH]; intros k s Hk Hstep.
  - exists s. rewrite Nat.add_0_r. by split.
  - destruct (Hstep k s ltac:(lia) Hk) as (t & Hb & Ht).
    simpl. rewrite Hb. simpl.
    replace (Z.of_nat k + 1) with (Z.of_nat (Datatypes.S k)) by lia.
    destruct (IH (Datatypes.S k) t Ht) as (t' & Ht' & HP).
    { intros i u Hi. apply Hstep. lia. }
    exists t'. split; [done|].
    by replace (k + Datatypes.S n)%nat with (Datatypes.S k + n)%nat by lia.
Qed.

(** A quantity that every iteration preserves is preserved by the loop. *)
Lemma for_range_preserves {M : Type} (measure : S -> M) body n i s t :
  (forall j u u', body j u = Ok u' -> measure u' = measure u) ->
  for_range n i body s = Ok t -> measure t = measure s.
Proof.
  intros Hb. revert i s. induction n as [|n IH]; intros i s; simpl.
  - by intros [= ->].
  - intros H. apply bind_Ok in H as (u & Hu & Ht).
    rewrite (IH _ _ Ht). eauto.
Qed.

(** If some iteration throws whatever the state of the same measure, the
    loop throws (there or before). *)
Lemma for_range_throws {M : Type} (measure : S -> M) body (n j : nat) i s :
  (forall j u u', body j u = Ok u' -> measure u' = measure u) ->
  (j < n)%nat ->
  (forall u, measure u = measure s ->
     body (i + Z.of_nat j) u = Throw std_out_of_range) ->
  for_range n i body s = Throw std_out_of_range.
Proof.
  intros Hb. revert j i s. induction n as [|n IH]; intros j i s Hj Hthrow; [lia|].
  simpl. destruct (body i s) as [u|e] eqn:Hu; simpl.
  - destruct j as [|j].
    + rewrite Z.add_0_r in Hthrow. rewrite Hthrow in Hu; [discriminate|done].
    + apply (IH j); [lia|]. intros v Hv.
      replace (i + 1 + Z.of_nat j) with (i + Z.of_nat (Datatypes.S j)) by lia.
      apply Hthrow. rewrite Hv. eauto.
  - by rewrite (exn_unique e).
Qed.

End Loops.

(** ** Bounds-checked access *)

Section Access.

Context {A : Type}.
Implicit Types (v : list A) (a : A).

Lemma vec_at_Some v (i : nat) a :
  v !! i = Some a -> vec_at v (Z.of_nat i) = Ok a.
Proof.
  intros H. unfold vec_at.
  destruct (Z.leb_spec 0 (Z.of_nat i)); [|lia].
  by rewrite Nat2Z.id, H.
Qed.

Lemma vec_at_past v (i : Z) :
  Z.of_nat (length v) <= i -> vec_at v i = Throw std_out_of_range.
Proof.
  intros H. unfold vec_at.
  destruct (Z.leb_spec 0 i); [|done].
  rewrite lookup_ge_None_2; [done|lia].
Qed.

Lemma vec_set_in v (i : nat) a :
  (i < length v)%nat -> vec_set v (Z.of_nat i) a = Ok (<[i := a]> v).
Proof.
  intros H. unfold vec_set.
  destruct (Z.leb_spec 0 (Z.of_nat i)); [|lia].
  destruct (Z.ltb_spec (Z.of_nat i) (Z.of_nat (length v))); [|lia].
  by rewrite Nat2Z.id.
Qed.

Lemma vec_set_past v (i : Z) a :
  Z.of_nat (length v) <= i -> vec_set v i a = Throw std_out_of_range.
Proof.
  intros H. unfold vec_set.
  destruct (Z.ltb_spec i (Z.of_nat (length v))); [lia|].
  by rewrite andb_false_r.
Qed.

Lemma vec_set_length v (i : Z) a v' :
  vec_set v i a = Ok v' -> length v' = length v.
Proof.
  unfold vec_set. destruct (_ && _); [|discriminate].
  intros [= <-]. apply length_insert.
Qed.

End Access.

(** ** The stages of the pipeline *)

Section PrefixMap.

Implicit Types (x : vec) (f : nat -> float).

Lemma prefix_map_length n f x :
  (n <= length x)%nat -> length (prefix_map n f x) = length x.
Proof.
  intros H. unfold prefix_map.
  rewrite length_app, length_fmap, length_seq, length_drop. lia.
Qed.

Lemma prefix_map_lookup_ge n f x (i : nat) :
  (n <= i)%nat -> (n <= length x)%nat -> prefix_map n f x !! i = x !! i.
Proof.
  intros Hi H. unfold prefix_map.
  rewrite lookup_app_r; rewrite length_fmap, length_seq; [|done].
  rewrite lookup_drop. f_equal. lia.
Qed.

Lemma prefix_map_lookup_lt n f x (i : nat) :
  (i < n)%nat -> prefix_map n f x !! i = Some (f i).
Proof.
  intros Hi. unfold prefix_map.
  rewrite lookup_app_l by (rewrite length_fmap, length_seq; lia).
  rewrite list_lookup_fmap, lookup_seq_lt by done. done.
Qed.

Lemma prefix_map_step n f x :
  (n < length x)%nat ->
  <[n := f n]> (prefix_map n f x) = prefix_map (Datatypes.S n) f x.
Proof.
  intros H. unfold prefix_map.
  destruct (lookup_lt_is_Some_2 x n H) as [a Ha].
  rewrite seq_S, fmap_app, <- app_assoc.
  rewrite insert_app_r_alt; rewrite length_fmap, length_seq; [|done].
  by rewrite Nat.sub_diag, (drop_S _ _ _ Ha).
Qed.

Lemma prefix_map_0 f x : prefix_map 0 f x = x.
Proof. done. Qed.

Lemma prefix_map_drop n f x :
  (n <= length x)%nat -> drop n (prefix_map n f x) = drop n x.
Proof.
  intros H. unfold prefix_map.
  rewrite drop_app_length'; [done|]. by rewrite length_fmap, length_seq.
Qed.

Lemma prefix_map_ext n f g x :
  (forall i, (i < n)%nat -> f i = g i) -> prefix_map n f x = prefix_map n g x.
Proof.
  intros H. unfold prefix_map. f_equal.
  apply list_eq. intros i. rewrite !list_lookup_fmap.
  destruct (decide (i < n)%nat) as [Hi|Hi].
  - rewrite lookup_seq_lt by done. simpl. f_equal. by apply H.
  - by rewrite lookup_seq_ge by lia.
Qed.

(** A loop whose iteration [i] stores [f i] at index [i]. *)
Lemma for_range_prefix_map body f x (n : nat) :
  (n <= length x)%nat ->
  (forall i t, (i < n)%nat -> length t = length x -> t !! i = x !! i ->
     body (Z.of_nat i) t = Ok (<[i := f i]> t)) ->
  for_range n 0 body x = Ok (prefix_map n f x).
Proof.
  intros Hn Hbody.
  destruct (for_range_invariant (fun i t => t = prefix_map i f x) body n 0 x)
    as (t & Ht & ->); [done| |done].
  intros i t Hi ->. eexists. split; [|reflexivity].
  rewrite Hbody, prefix_map_step; [done|lia|lia| |].
  - apply prefix_map_length. lia.
  - apply prefix_map_lookup_ge; lia.
Qed.

End PrefixMap.

Section Stages.

Implicit Types (x Os Mr : vec) (nx : Z).

Lemma nth_Some (v : vec) (i : nat) (a : float) :
  v !! i = Some a -> nth i v 0%float = a.
Proof. intros H. by rewrite nth_lookup, H. Qed.

Lemma shiftfunc_ok x Os nx :
  (Z.to_nat nx <= length x)%nat -> (Z.to_nat nx <= length Os)%nat ->
  shiftfunc x Os nx = Ok (shifted (Z.to_nat nx) x Os).
Proof.
  intros Hx HOs. unfold shiftfunc, for_int, shifted.
  apply for_range_prefix_map; [done|].
  intros i t Hi Hlen Ht.
  destruct (lookup_lt_is_Some_2 x i ltac:(lia)) as [a Ha].
  destruct (lookup_lt_is_Some_2 Os i ltac:(lia)) as [o Ho].
  rewrite Ha in Ht.
  rewrite (vec_at_Some _ _ _ Ht), (vec_at_Some _ _ _ Ho). simpl.
  rewrite vec_set_in by lia.
  by rewrite (nth_Some _ _ _ Ha), (nth_Some _ _ _ Ho).
Qed.

Lemma scale_ok x (sh_rate : float) nx :
  (Z.to_nat nx <= length x)%nat ->
  for_int nx (fun i x =>
      let* xi := vec_at x i in
      vec_set x i (xi * sh_rate)%float) x
  = Ok (scaled (Z.to_nat nx) sh_rate x).
Proof.
  intros Hx. unfold for_int, scaled.
  apply for_range_prefix_map; [done|].
  intros i t Hi Hlen Ht.
  destruct (lookup_lt_is_Some_2 x i ltac:(lia)) as [a Ha].
  rewrite Ha in Ht.
  rewrite (vec_at_Some _ _ _ Ht). simpl.
  rewrite vec_set_in by lia.
  by rewrite (nth_Some _ _ _ Ha).
Qed.

Lemma rotatefunc_ok x Mr nx :
  (Z.to_nat nx <= length x)%nat ->
  (Z.to_nat nx * Z.to_nat nx <= length Mr)%nat ->
  rotatefunc x Mr nx = Ok (rotated (Z.to_nat nx) x Mr).
Proof.
  intros Hx HMr. unfold rotatefunc, rotated. unfold for_int at 1.
  apply for_range_prefix_map; [done|].
  intros i t Hi Hlen _.
  rewrite vec_set_in by lia. simpl. unfold for_int.
  set (n := Z.to_nat nx) in *.
  assert (Hnx : nx = Z.of_nat n) by lia.
  set (g := (fun acc j => acc + nth j x 0 * nth (i * n + j) Mr 0)%float).
  destruct (for_range_invariant
              (fun j u => u = <[i := foldl g 0%float (seq 0 j)]> t)
              (fun j x0 =>
                 let* xi := vec_at x0 (Z.of_nat i) in
                 let* cj := vec_at x j in
                 let* m := vec_at Mr (Z.of_nat i * nx + j) in
                 vec_set x0 (Z.of_nat i) (xi + cj * m)%float)
              n 0 (<[i := 0%float]> t)) as (u & Hu & ->); [done| |].
  - intros j u Hj ->.
    destruct (lookup_lt_is_Some_2 x j ltac:(lia)) as [c Hc].
    destruct (lookup_lt_is_Some_2 Mr (i * n + j) ltac:(nia)) as [m Hm].
    rewrite (vec_at_Some _ i (foldl g 0%float (seq 0 j)))
      by (apply list_lookup_insert_eq; lia).
    rewrite (vec_at_Some _ _ _ Hc). simpl.
    replace (Z.of_nat i * nx + Z.of_nat j) with (Z.of_nat (i * n + j)) by lia.
    rewrite (vec_at_Some _ _ _ Hm). simpl.
    rewrite vec_set_in by (rewrite length_insert; lia).
    exists (<[i := foldl g 0%float (seq 0 (Datatypes.S j))]> t).
    split; [|done]. f_equal.
    rewrite list_insert_insert_eq, seq_S, foldl_app. simpl.
    unfold g at 2. by rewrite (nth_Some _ _ _ Hc), (nth_Some _ _ _ Hm).
  - etrans; [exact Hu|]. done.
Qed.

End Stages.

(** ** When an access is out of range *)

Section OutOfRange.

Implicit Types (x Os Mr : vec) (nx : Z).

Lemma bind_Throw {A B : Type} (m : outcome A) (k : A -> outcome B) :
  (forall a, m = Ok a -> k a = Throw std_out_of_range) ->
  bind m k = Throw std_out_of_range.
Proof.
  intros H. destruct m as [a|e]; simpl; [by apply H|by rewrite (exn_unique e)].
Qed.

Lemma shift_body_length Os (i : Z) (u u' : vec) :
  (let* xi := vec_at u i in
   let* oi := vec_at Os i in
   vec_set u i (xi - oi)%float) = Ok u' ->
  length u' = length u.
Proof.
  intros H. apply bind_Ok in H as (a & _ & H).
  apply bind_Ok in H as (o & _ & H). by apply vec_set_length in H.
Qed.

Lemma scale_body_length (sh_rate : float) (i : Z) (u u' : vec) :
  (let* xi := vec_at u i in vec_set u i (xi * sh_rate)%float) = Ok u' ->
  length u' = length u.
Proof.
  intros H. apply bind_Ok in H as (a & _ & H). by apply vec_set_length in H.
Qed.

Lemma rotate_inner_length x Mr nx (i j : Z) (u u' : vec) :
  (let* xi := vec_at u i in
   let* cj := vec_at x j in
   let* m := vec_at Mr (i * nx + j) in
   vec_set u i (xi + cj * m)%float) = Ok u' ->
  length u' = length u.
Proof.
  intros H. apply bind_Ok in H as (a & _ & H).
  apply bind_Ok in H as (c & _ & H). apply bind_Ok in H as (m & _ & H).
  by apply vec_set_length in H.
Qed.

Lemma rotate_body_length x Mr nx (i : Z) (u u' : vec) :
  (let* u1 := vec_set u i 0%float in
   for_int nx (fun j x0 =>
     let* xi := vec_at x0 i in
     let* cj := vec_at x j in
     let* m := vec_at Mr (i * nx + j) in
     vec_set x0 i (xi + cj * m)%float) u1) = Ok u' ->
  length u' = length u.
Proof.
  intros H. apply bind_Ok in H as (u1 & H1 & H).
  apply vec_set_length in H1. rewrite <- H1.
  unfold for_int in H.
  apply (for_range_preserves (length (A:=float))) in H; [done|].
  intros j v v'. apply rotate_inner_length.
Qed.

Lemma shiftfunc_throws x Os nx :
  (length x < Z.to_nat nx)%nat \/ (length Os < Z.to_nat nx)%nat ->
  shiftfunc x Os nx = Throw std_out_of_range.
Proof.
  intros H. unfold shiftfunc, for_int.
  apply (for_range_throws (length (A:=float)) _ _
           (Nat.min (length x) (length Os)));
    [intros j u u'; apply shift_body_length|lia|].
  intros u Hu. rewrite Z.add_0_l.
  destruct (Nat.le_ge_cases (length x) (length Os)).
  - rewrite vec_at_past; [done|lia].
  - apply bind_Throw. intros a _. rewrite vec_at_past; [done|lia].
Qed.

Lemma scale_throws x (sh_rate : float) nx :
  (length x < Z.to_nat nx)%nat ->
  for_int nx (fun i x =>
      let* xi := vec_at x i in
      vec_set x i (xi * sh_rate)%float) x
  = Throw std_out_of_range.
Proof.
  intros H. unfold for_int.
  apply (for_range_throws (length (A:=float)) _ _ (length x));
    [intros j u u'; apply scale_body_length|lia|].
  intros u Hu. rewrite Z.add_0_l. rewrite vec_at_past; [done|lia].
Qed.

Lemma rotatefunc_throws x Mr nx :
  (length x < Z.to_nat nx)%nat
  \/ (length Mr < Z.to_nat nx * Z.to_nat nx)%nat ->
  rotatefunc x Mr nx = Throw std_out_of_range.
Proof.
  intros H. unfold rotatefunc. unfold for_int at 1.
  destruct (Nat.lt_ge_cases (length x) (Z.to_nat nx)) as [Hx|Hx].
  - apply (for_range_throws (length (A:=float)) _ _ (length x));
      [intros j u u'; apply rotate_body_length|lia|].
    intros u Hu. rewrite Z.add_0_l. rewrite vec_set_past; [done|lia].
  - destruct H as [H|H]; [lia|].
    set (n := Z.to_nat nx) in *.
    assert (Hn : (0 < n)%nat) by nia.
    assert (Hnx : nx = Z.of_nat n) by lia.
    apply (for_range_throws (length (A:=float)) _ _ (n - 1)%nat);
      [intros j u u'; apply rotate_body_length|lia|].
    intros u Hu. apply bind_Throw. intros u1 _. unfold for_int. fold n.
    apply (for_range_throws (length (A:=float)) _ _ (n - 1)%nat);
      [intros j v v'; apply rotate_inner_length|lia|].
    intros v Hv. apply bind_Throw. intros a _.
    apply bind_Throw. intros c _.
    rewrite vec_at_past; [done|]. nia.
Qed.

End OutOfRange.

(** ** [sr_func] as a whole *)

Section SrFunc.

Implicit Types (x Os Mr : vec) (nx : Z) (sh_rate : float).

(** IEEE multiplication does not depend on the order of its operands. *)
Lemma float_mul_comm (a b : float) : (a * b = b * a)%float.
Proof.
  apply Prim2SF_inj. rewrite !mul_spec.
  destruct (Prim2SF a) as [s|s| |s m e], (Prim2SF b) as [s'|s'| |s' m' e'];
    simpl; try reflexivity; try (f_equal; apply xorb_comm).
  unfold SF64mul, SFmul. by rewrite xorb_comm, Pos.mul_comm, Z.add_comm.
Qed.

Lemma sr_spec_length x Os Mr sh_rate s_flag r_flag nx :
  (Z.to_nat nx <= length x)%nat ->
  length (sr_spec x Os Mr sh_rate s_flag r_flag nx) = length x.
Proof.
  intros H. unfold sr_spec, rotated, scaled, shifted.
  destruct s_flag, r_flag; repeat (rewrite prefix_map_length); done.
Qed.

Lemma sr_func_in_range x Os Mr sh_rate s_flag r_flag nx :
  in_range x Os Mr s_flag r_flag nx ->
  sr_func x Os Mr sh_rate s_flag r_flag nx
  = Ok (sr_spec x Os Mr sh_rate s_flag r_flag nx).
Proof.
  intros (Hx & HOs & HMr). unfold sr_func, sr_spec.
  assert (Hn : (Z.to_nat nx <= length x)%nat) by lia.
  assert (H1 : (if s_flag then shiftfunc x Os nx else Ok x)
               = Ok (if s_flag then shifted (Z.to_nat nx) x Os else x)).
  { destruct s_flag; [|done]. apply shiftfunc_ok; [done|].
    specialize (HOs eq_refl). lia. }
  rewrite H1. simpl.
  set (x1 := if s_flag then _ else _).
  assert (Hx1 : length x1 = length x).
  { subst x1. destruct s_flag; [|done]. by apply prefix_map_length. }
  rewrite scale_ok by lia. simpl.
  destruct r_flag; [|done].
  apply rotatefunc_ok.
  - unfold scaled. rewrite prefix_map_length; lia.
  - specialize (HMr eq_refl). nia.
Qed.

Lemma sr_func_out_of_range x Os Mr sh_rate s_flag r_flag nx :
  Z.of_nat (length x) < nx
  \/ (s_flag = true /\ Z.of_nat (length Os) < nx)
  \/ (r_flag = true /\ 0 <= nx /\ Z.of_nat (length Mr) < nx * nx) ->
  sr_func x Os Mr sh_rate s_flag r_flag nx = Throw std_out_of_range.
Proof.
  intros H. unfold sr_func.
  apply bind_Throw. intros x1 H1.
  assert (Hx1 : length x1 = length x).
  { destruct s_flag; [|by injection H1 as <-].
    unfold shiftfunc, for_int in H1.
    apply (for_range_preserves (length (A:=float))) in H1; [done|].
    intros j u u'. apply shift_body_length. }
  destruct (Z.lt_ge_cases (Z.of_nat (length x)) nx) as [Hx|Hx].
  { rewrite scale_throws; [done|lia]. }
  destruct H as [H|[[-> H]|(-> & H0 & H)]]; [lia| |].
  - rewrite shiftfunc_throws in H1; [discriminate|lia].
  - apply bind_Throw. intros x2 H2.
    unfold for_int in H2.
    apply (for_range_preserves (length (A:=float))) in H2;
      [|intros j u u'; apply scale_body_length].
    apply rotatefunc_throws. right. nia.
Qed.

Lemma prefix_map_take n (f g : nat -> float) x :
  (n <= length x)%nat ->
  (forall i, (i < n)%nat -> g i = f i) ->
  prefix_map n g (take n x) = take n (prefix_map n f x).
Proof.
  intros Hn Hfg. rewrite (prefix_map_ext n g f) by done.
  unfold prefix_map.
  rewrite take_app_length' by (by rewrite length_fmap, length_seq).
  rewrite drop_ge by (rewrite length_take; lia).
  by rewrite app_nil_r.
Qed.

Lemma nth_take (n i : nat) x :
  (i < n)%nat -> nth i (take n x) 0%float = nth i x 0%float.
Proof. intros H. by rewrite !nth_lookup, lookup_take_lt. Qed.

Lemma foldl_seq_ext {A : Type} (f g : A -> nat -> A) (a : A) (n : nat) :
  (forall b j, (j < n)%nat -> f b j = g b j) ->
  foldl f a (seq 0 n) = foldl g a (seq 0 n).
Proof.
  induction n as [|n IH]; intros H; [done|].
  rewrite seq_S, !foldl_app. simpl. rewrite IH by (intros; apply H; lia).
  apply H. lia.
Qed.

Lemma row_sum_take n x Mr (i : nat) :
  row_sum n (take n x) Mr i = row_sum n x Mr i.
Proof.
  unfold row_sum. apply foldl_seq_ext. intros b j Hj. by rewrite nth_take.
Qed.

(** The stages only look at the first [n] coordinates. *)
Lemma sr_spec_take x Os Mr sh_rate s_flag r_flag nx :
  (Z.to_nat nx <= length x)%nat ->
  sr_spec (take (Z.to_nat nx) x) Os Mr sh_rate s_flag r_flag nx
  = take (Z.to_nat nx) (sr_spec x Os Mr sh_rate s_flag r_flag nx).
Proof.
  intros Hn. unfold sr_spec. set (n := Z.to_nat nx) in *.
  assert (H1 : (if s_flag then shifted n (take n x) Os else take n x)
               = take n (if s_flag then shifted n x Os else x)).
  { destruct s_flag; [|done]. unfold shifted.
    apply prefix_map_take; [done|]. intros i Hi. by rewrite nth_take. }
  rewrite H1. set (x1 := if s_flag then shifted n x Os else x).
  assert (Hx1 : (n <= length x1)%nat).
  { subst x1. destruct s_flag; [|done]. unfold shifted.
    by rewrite prefix_map_length. }
  assert (H2 : scaled n sh_rate (take n x1) = take n (scaled n sh_rate x1)).
  { unfold scaled. apply prefix_map_take; [done|].
    intros i Hi. by rewrite nth_take. }
  rewrite H2. destruct r_flag; [|done].
  unfold rotated. apply prefix_map_take.
  - unfold scaled. by rewrite prefix_map_length.
  - intros i Hi. apply row_sum_take.
Qed.

Lemma sr_spec_drop x Os Mr sh_rate s_flag r_flag nx :
  (Z.to_nat nx <= length x)%nat ->
  drop (Z.to_nat nx) (sr_spec x Os Mr sh_rate s_flag r_flag nx)
  = drop (Z.to_nat nx) x.
Proof.
  intros Hn. unfold sr_spec, rotated, scaled, shifted.
  destruct s_flag, r_flag;
    repeat (rewrite prefix_map_drop); repeat (rewrite prefix_map_length); done.
Qed.

End SrFunc.

(** ** The claims on the transformation pipeline *)

(** C2.  For every [x] and [Os] of length at least [nx] and every [Mr] of
    length at least [nx * nx], whatever the flags, [sr_func] returns
    normally and its result is the composition, in this order, of the
    elementwise subtraction of [Os] (when [s_flag] is set), the
    multiplication of each coordinate by [sh_rate], and (when [r_flag] is
    set) the product of the row-major matrix [Mr] with the vector that
    was shifted and scaled before. *)
Theorem sr_func_fixed_order (x Os Mr : vec) (sh_rate : float)
    (s_flag r_flag : bool) (nx : Z) :
  nx <= Z.of_nat (length x) ->
  nx <= Z.of_nat (length Os) ->
  nx * nx <= Z.of_nat (length Mr) ->
  sr_func x Os Mr sh_rate s_flag r_flag nx
  = Ok (let n := Z.to_nat nx in
        let shifted_x := if s_flag then shifted n x Os else x in
        let scaled_x := scaled n sh_rate shifted_x in
        if r_flag then rotated n scaled_x Mr else scaled_x).
Proof.
  intros Hx HOs HMr.
  by apply (sr_func_in_range x Os Mr sh_rate s_flag r_flag nx).
Qed.

Lemma sr_func_fixed_order_witness :
  sr_func [1; 2; 3]%float [1; 1; 1]%float [0; 1; 1; 0]%float 2%float true true 2
  = Ok [2; 0; 3]%float.
Proof.
  rewrite (sr_func_fixed_order [1; 2; 3]%float [1; 1; 1]%float
             [0; 1; 1; 0]%float 2%float true true 2);
    [reflexivity | simpl; lia | simpl; lia | simpl; lia].
Defined.

(** C3.  With [r_flag] false the result of [sr_func] is the same for any
    two matrices: the matrix is never read.  When [x] has at least [nx]
    coordinates (and [Os] too if [s_flag] is set), coordinate [i < nx] of
    the result is [sh_rate * (x[i] - Os[i])] when [s_flag] is set and
    [sh_rate * x[i]] otherwise; the coordinates from [nx] on are those of
    [x]. *)
Theorem sr_func_rotation_disabled (x Os Mr1 Mr2 : vec) (sh_rate : float)
    (s_flag : bool) (nx : Z) :
  sr_func x Os Mr1 sh_rate s_flag false nx
  = sr_func x Os Mr2 sh_rate s_flag false nx
  /\ (nx <= Z.of_nat (length x) ->
      (s_flag = true -> nx <= Z.of_nat (length Os)) ->
      exists x',
        sr_func x Os Mr1 sh_rate s_flag false nx = Ok x'
        /\ length x' = length x
        /\ (forall i : nat, Z.of_nat i < nx ->
              x' !! i = Some (if s_flag
                              then sh_rate * (nth i x 0 - nth i Os 0)
                              else sh_rate * nth i x 0)%float)
        /\ (forall i : nat, nx <= Z.of_nat i -> x' !! i = x !! i)).
Proof.
  split; [done|]. intros Hx HOs.
  assert (Hn : (Z.to_nat nx <= length x)%nat) by lia.
  exists (sr_spec x Os Mr1 sh_rate s_flag false nx).
  split; [by apply sr_func_in_range|].
  split; [by apply sr_spec_length|]. split.
  - intros i Hi. unfold sr_spec, scaled.
    rewrite prefix_map_lookup_lt by lia. f_equal.
    rewrite float_mul_comm. destruct s_flag; [|done].
    unfold shifted. by rewrite nth_lookup, prefix_map_lookup_lt by lia.
  - intros i Hi. unfold sr_spec, scaled, shifted.
    destruct s_flag; repeat (rewrite prefix_map_lookup_ge);
      repeat (rewrite prefix_map_length); done || lia.
Qed.

Lemma sr_func_rotation_disabled_witness :
  exists x',
    sr_func [1; 2; 3]%float [1; 1]%float [] 2%float true false 2 = Ok x'
    /\ length x' = 3%nat
    /\ (forall i : nat, Z.of_nat i < 2 ->
          x' !! i = Some (2 * (nth i [1; 2; 3] 0 - nth i [1; 1] 0))%float)
    /\ (forall i : nat, 2 <= Z.of_nat i -> x' !! i = [1; 2; 3]%float !! i).
Proof.
  apply (proj2 (sr_func_rotation_disabled [1; 2; 3]%float [1; 1]%float
                  [] [7]%float 2%float true 2)); simpl; lia.
Defined.

(** C10.  Every access of [shiftfunc], [rotatefunc] and [sr_func] is
    bounds-checked.  When [x] has at least [nx] elements, [Os] has as
    many if it is read and [Mr] has at least [nx * nx] if it is read, no
    access is out of range: the call returns and the elements of [x]
    from index [nx] on are unchanged; the call of [sr_func] on the first
    [nx] elements alone returns the same first [nx] elements, so nothing
    beyond index [nx - 1] is read.  When [x], or a shift table or matrix
    that is read, is shorter than that, the call throws
    [std::out_of_range]. *)
Theorem transforms_bounds_checked (x Os Mr : vec) (sh_rate : float)
    (s_flag r_flag : bool) (nx : Z) :
  ((nx <= Z.of_nat (length x) /\ nx <= Z.of_nat (length Os) ->
    exists x', shiftfunc x Os nx = Ok x'
               /\ drop (Z.to_nat nx) x' = drop (Z.to_nat nx) x)
   /\ (Z.of_nat (length x) < nx \/ Z.of_nat (length Os) < nx ->
       shiftfunc x Os nx = Throw std_out_of_range))
  /\ ((nx <= Z.of_nat (length x) /\ nx * nx <= Z.of_nat (length Mr) ->
       exists x', rotatefunc x Mr nx = Ok x'
                  /\ drop (Z.to_nat nx) x' = drop (Z.to_nat nx) x)
      /\ (Z.of_nat (length x) < nx
          \/ (0 <= nx /\ Z.of_nat (length Mr) < nx * nx) ->
          rotatefunc x Mr nx = Throw std_out_of_range))
  /\ (nx <= Z.of_nat (length x)
      /\ (s_flag = true -> nx <= Z.of_nat (length Os))
      /\ (r_flag = true -> nx * nx <= Z.of_nat (length Mr)) ->
      exists x',
        sr_func x Os Mr sh_rate s_flag r_flag nx = Ok x'
        /\ length x' = length x
        /\ drop (Z.to_nat nx) x' = drop (Z.to_nat nx) x
        /\ sr_func (take (Z.to_nat nx) x) Os Mr sh_rate s_flag r_flag nx
           = Ok (take (Z.to_nat nx) x'))
  /\ (Z.of_nat (length x) < nx
      \/ (s_flag = true /\ Z.of_nat (length Os) < nx)
      \/ (r_flag = true /\ 0 <= nx /\ Z.of_nat (length Mr) < nx * nx) ->
      sr_func x Os Mr sh_rate s_flag r_flag nx = Throw std_out_of_range).
Proof.
  split; [split|split; [split|split]].
  - intros [Hx HOs]. eexists. split; [apply shiftfunc_ok; lia|].
    apply prefix_map_drop. lia.
  - intros H. apply shiftfunc_throws. lia.
  - intros [Hx HMr]. eexists. split; [apply rotatefunc_ok; nia|].
    apply prefix_map_drop. lia.
  - intros H. apply rotatefunc_throws. nia.
  - intros Hin. pose proof Hin as (Hx & HOs & HMr).
    assert (Hn : (Z.to_nat nx <= length x)%nat) by lia.
    exists (sr_spec x Os Mr sh_rate s_flag r_flag nx).
    split; [by apply sr_func_in_range|].
    split; [by apply sr_spec_length|].
    split; [by apply sr_spec_drop|].
    rewrite <- sr_spec_take by done.
    apply sr_func_in_range. split; [|done].
    rewrite length_take. lia.
  - apply sr_func_out_of_range.
Qed.

Lemma transforms_bounds_checked_witness :
  (exists x',
     sr_func [1; 2; 3]%float [1; 1]%float [0; 1; 1; 0]%float 2%float true true 2
     = Ok x'
     /\ length x' = 3%nat
     /\ drop 2 x' = [3]%float
     /\ sr_func [1; 2]%float [1; 1]%float [0; 1; 1; 0]%float 2%float true true 2
        = Ok (take 2 x'))
  /\ sr_func [1; 2; 3]%float [1; 1]%float [0; 1; 1]%float 2%float true true 2
     = Throw std_out_of_range
  /\ rotatefunc [1; 2; 3]%float [] 2 = Throw std_out_of_range
  /\ shiftfunc [1; 2; 3]%float [] 2 = Throw std_out_of_range.
Proof.
  split; [|split; [|split]].
  - apply (proj1 (proj2 (proj2 (transforms_bounds_checked
             [1; 2; 3]%float [1; 1]%float [0; 1; 1; 0]%float
             2%float true true 2)))).
    simpl. lia.
  - apply (proj2 (proj2 (proj2 (transforms_bounds_checked
             [1; 2; 3]%float [1; 1]%float [0; 1; 1]%float
             2%float true true 2)))).
    right. right. simpl. lia.
  - apply (proj2 (proj1 (proj2 (transforms_bounds_checked
             [1; 2; 3]%float [] [] 2%float true true 2)))).
    right. simpl. lia.
  - apply (proj2 (proj1 (transforms_bounds_checked
             [1; 2; 3]%float [] [] 2%float true true 2))).
    right. simpl. lia.
Defined.

(** ** The per-function bias *)

(** C6.  For a function number from 1 to 10, [getFunctionBias] returns
    the entry of that rank in the fixed table 100, 1100, 700, 1900, 1700,
    1600, 2100, 2200, 2400, 2500 when [biasFlag] is not zero, and 0 when
    it is zero.  The function takes no instance number, so the bias is
    that of the function alone. *)
Theorem getFunctionBias_table `{Unspecified} (biasFlag fnNumber : Z) :
  1 <= fnNumber <= 10 ->
  getFunctionBias biasFlag fnNumber
  = if biasFlag =? 0 then 0%float
    else nth (Z.to_nat (fnNumber - 1))
           [100; 1100; 700; 1900; 1700; 1600; 2100; 2200; 2400; 2500]%float
           0%float.
Proof.
  intros Hfn. unfold getFunctionBias, array_get, fnBiasDict.
  destruct (biasFlag =? 0); [done|]. cbn [negb].
  destruct (Z.leb_spec 0 (fnNumber - 1)); [|lia].
  assert (Hn : (Z.to_nat (fnNumber - 1) < 10)%nat) by lia.
  destruct (Z.to_nat (fnNumber - 1)) as [|[|[|[|[|[|[|[|[|[|n]]]]]]]]]];
    (reflexivity || lia).
Qed.

Lemma getFunctionBias_table_witness :
  @getFunctionBias sample_machine 1 3 = 700%float
  /\ @getFunctionBias sample_machine 0 3 = 0%float.
Proof.
  split.
  - rewrite (@getFunctionBias_table sample_machine 1 3); [reflexivity|lia].
  - rewrite (@getFunctionBias_table sample_machine 0 3); [reflexivity|lia].
Defined.

(** ** The table loaders *)

Section Loaders.

Context {A : Type} (convert : float -> A).

(** Once the stream is not good, [peek] reports [EOF] and the loop ends. *)
Lemma read_loop_not_good (count : nat) (s : ifstream) (data : float)
    (out : list A) :
  good s = false -> read_loop convert count s data out = (out, s).
Proof.
  intros Hs. destruct count as [|count]; [done|].
  simpl. unfold peek_is_EOF. by rewrite Hs.
Qed.

Lemma last_cons_default (a : float) (l : list float) (d1 d2 : float) :
  List.last (a :: l) d1 = List.last (a :: l) d2.
Proof.
  revert a. induction l as [|b l IH]; intros a; [done|].
  change (List.last (b :: l) d1 = List.last (b :: l) d2). apply IH.
Qed.

(** What the loop appends from a file that was opened: the first
    [count] numbers and, if they run out first and white space follows
    the last one, once more what the variable holds: the last number
    read, or the content on entry when there was none. *)
Lemma read_loop_good (count : nat) (vs : list float) (ws : bool)
    (data : float) (out : list A) :
  fst (read_loop convert count
         {| good := true; pending := vs; pending_space := ws |} data out)
  = out ++ (convert <$> take count vs)
        ++ (if ws && (length vs <? count)%nat
            then [convert (List.last vs data)] else []).
Proof.
  revert vs data out. induction count as [|count IH]; intros vs data out.
  - replace (length vs <? 0)%nat with false
      by (symmetry; apply Nat.ltb_ge; lia).
    rewrite take_0, andb_false_r. simpl. by rewrite app_nil_r.
  - destruct vs as [|d rest].
    + destruct ws; simpl.
      * by rewrite read_loop_not_good.
      * by rewrite app_nil_r.
    + cbn [read_loop peek_is_EOF good pending orb negb extract pending_space].
      replace (length (d :: rest) <? Datatypes.S count)%nat
        with (length rest <? count)%nat by done.
      destruct rest as [|d' rest'].
      * destruct ws.
        -- rewrite IH. simpl. by rewrite take_nil, <- app_assoc.
        -- rewrite read_loop_not_good by done. simpl.
           by rewrite take_nil.
      * rewrite IH. rewrite <- app_assoc.
        by rewrite (last_cons_default d' rest' d data).
Qed.

(** The number of values appended. *)
Lemma read_loop_count (count : nat) (t : table) (data : float) (out : list A) :
  length (fst (read_loop convert count
                 {| good := true; pending := numbers t;
                    pending_space := trailing_space t |} data out))
  = (length out
     + Nat.min count (length (numbers t)
                      + if trailing_space t then 1 else 0))%nat.
Proof.
  rewrite read_loop_good, !length_app, length_fmap, length_take.
  destruct (trailing_space t); simpl.
  - destruct (Nat.ltb_spec (length (numbers t)) count); simpl; lia.
  - lia.
Qed.

End Loaders.

Section LoadersOnFiles.

Context `{Unspecified}.
Implicit Types (fs : filesystem) (dataPath : string) (dim fn cecVersion : Z)
  (stale : float).

Lemma appended_min (S : Z) (t : table) :
  trailing_space t = false \/ S <= Z.of_nat (length (numbers t)) ->
  Z.of_nat (appended S t) = Z.max 0 (Z.min S (Z.of_nat (length (numbers t)))).
Proof. unfold appended. destruct (trailing_space t); lia. Qed.

Lemma loadMatrixData_appends fs stale (Mr : vec) dataPath dim fn cecVersion t :
  fs (matrix_FileName dataPath dim fn cecVersion) = Some t ->
  exists Mr',
    loadMatrixData fs stale Mr dataPath dim fn cecVersion = Ok (Mr', [])
    /\ length Mr' = (length Mr + appended (MatrixSize dim fn cecVersion) t)%nat.
Proof.
  intros Hfs. unfold loadMatrixData, ifstream_open. rewrite Hfs.
  cbn [ifstream_not good negb].
  destruct (read_loop _ _ _ _ _) as [Mr' s'] eqn:Hloop.
  exists Mr'. split; [done|].
  change Mr' with (fst (Mr', s')). rewrite <- Hloop.
  apply read_loop_count.
Qed.

Lemma loadShuffleData_appends fs stale (SS : list Z) dataPath dim fn
    cecVersion t :
  fs (shuffle_FileName dataPath dim fn cecVersion) = Some t ->
  exists SS',
    loadShuffleData fs stale SS dataPath dim fn cecVersion = Ok (SS', [])
    /\ length SS' = (length SS + appended (ShuffleSize dim fn cecVersion) t)%nat.
Proof.
  intros Hfs. unfold loadShuffleData, ifstream_open. rewrite Hfs.
  cbn [ifstream_not good negb].
  destruct (read_loop _ _ _ _ _) as [SS' s'] eqn:Hloop.
  exists SS'. split; [done|].
  change SS' with (fst (SS', s')). rewrite <- Hloop.
  apply read_loop_count.
Qed.

Lemma loadOShiftData_appends fs stale (Os : vec) dataPath dim fn cecVersion t :
  fs (oshift_FileName dataPath fn cecVersion) = Some t ->
  fn < fst (oshift_params fn cecVersion) ->
  exists Os',
    loadOShiftData fs stale Os dataPath dim fn cecVersion = Ok (Os', [])
    /\ length Os' = (length Os + appended dim t)%nat.
Proof.
  intros Hfs Hfn. unfold loadOShiftData, OShiftSize, ifstream_open.
  rewrite Hfs. destruct (oshift_params fn cecVersion) as [funcTreshold coeff].
  simpl in Hfn. cbn [ifstream_not good negb].
  destruct (Z.ltb_spec fn funcTreshold); [|lia].
  eexists. split; [done|]. apply read_loop_count.
Qed.

(** A file that cannot be opened leaves the table as it was. *)
Lemma read_loop_closed {A : Type} (convert : float -> A) fs (name : string)
    (count : nat) (data : float) (out : list A) :
  fs name = None ->
  read_loop convert count (ifstream_open fs name) data out
  = (out, ifstream_open fs name).
Proof.
  intros Hfs. apply read_loop_not_good. unfold ifstream_open. by rewrite Hfs.
Qed.

End LoadersOnFiles.

(** C4.  The loaders mean to stop at the expected count or at the end of
    the file, whichever comes first, and they raise no error on a short
    file.  The test for the end of the file is [peek() == EOF], which
    white space after the last number does not satisfy: on the file
    ["1 0\n0\n"], three numbers where [MatrixSize] is four,
    [loadMatrixData] appends four values and not [min 4 3 = 3].  The
    fourth is the variable [matrixData] as the failed extraction left
    it: whatever the stack held on entry, it holds the third number
    again. *)
Theorem loadMatrixData_short_file `{Unspecified} (stale : float) :
  MatrixSize 2 1 2022 = 4
  /\ (short_matrix_file (matrix_FileName "data" 2 1 2022)
      = Some {| numbers := [1; 0; 0]%float; trailing_space := true |})
  /\ loadMatrixData short_matrix_file stale [] "data" 2 1 2022
     = Ok ([1; 0; 0; 0]%float, []).
Proof. repeat split. Qed.

(** C5, as the claim states it, fails: with no file to open,
    [loadMatrixData] and [loadOShiftData] return normally and hand back
    an empty table. *)
Lemma missing_file_returns_normally :
  no_files (matrix_FileName "data" 2 1 2022) = None
  /\ @loadMatrixData sample_machine no_files 0%float [] "data" 2 1 2022
     = Ok ([], [cout "data/cec2022/M_1_D2.txt";
                perror "Error: Cannot open input file for reading"])
  /\ @loadOShiftData sample_machine no_files 0%float [] "data" 2 1 2022
     = Ok ([], [perror "Error: Cannot open input file for reading"]).
Proof. repeat split. Qed.

(** C5, amended.  When the file cannot be opened, each loader writes a
    diagnostic ([perror]; [loadMatrixData] prints the file name first),
    appends nothing and returns normally with the table it was given: no
    error reaches the caller. *)
Theorem missing_file_is_reported_not_raised `{Unspecified} (fs : filesystem)
    (stale : float) (Mr Os : vec) (SS : list Z) (dataPath : string)
    (dim fn cecVersion : Z) :
  (fs (matrix_FileName dataPath dim fn cecVersion) = None ->
   loadMatrixData fs stale Mr dataPath dim fn cecVersion
   = Ok (Mr, [cout (matrix_FileName dataPath dim fn cecVersion);
              perror "Error: Cannot open input file for reading"]))
  /\ (fs (oshift_FileName dataPath fn cecVersion) = None ->
      loadOShiftData fs stale Os dataPath dim fn cecVersion
      = Ok (Os, [perror "Error: Cannot open input file for reading"]))
  /\ (fs (shuffle_FileName dataPath dim fn cecVersion) = None ->
      loadShuffleData fs stale SS dataPath dim fn cecVersion
      = Ok (SS, [perror "Error: Cannot open input file for reading"])).
Proof.
  repeat split; intros Hfs.
  - unfold loadMatrixData. rewrite read_loop_closed by done.
    unfold ifstream_open. by rewrite Hfs.
  - unfold loadOShiftData. rewrite read_loop_closed by done.
    destruct (oshift_params fn cecVersion) as [funcTreshold coeff].
    unfold ifstream_open. rewrite Hfs. simpl. by destruct (fn <? funcTreshold).
  - unfold loadShuffleData. rewrite read_loop_closed by done.
    unfold ifstream_open. by rewrite Hfs.
Qed.

Lemma missing_file_is_reported_not_raised_witness :
  @loadMatrixData sample_machine no_files 0%float [1]%float "data" 10 3 2017
  = Ok ([1]%float, [cout "data/cec2017/M_3_D10.txt";
                    perror "Error: Cannot open input file for reading"])
  /\ @loadOShiftData sample_machine no_files 0%float [1]%float "data" 10 3 2017
     = Ok ([1]%float, [perror "Error: Cannot open input file for reading"])
  /\ @loadShuffleData sample_machine no_files 0%float [4] "data" 10 3 2017
     = Ok ([4], [perror "Error: Cannot open input file for reading"]).
Proof.
  destruct (@missing_file_is_reported_not_raised sample_machine no_files
              0%float [1]%float [1]%float [4] "data" 10 3 2017)
    as (HM & HO & HS).
  split; [exact (HM eq_refl)|]. split; [exact (HO eq_refl)|exact (HS eq_refl)].
Defined.

(** C9.  When [fn] is not below the [funcTreshold] that [loadOShiftData]
    sets for the suite, the function appends nothing to [Os], whatever
    the file holds, and returns normally, although the size it computed
    for the table is [coeff * dim]. *)
Theorem loadOShiftData_composite `{Unspecified} (fs : filesystem)
    (stale : float) (Os : vec) (dataPath : string) (dim fn cecVersion : Z) :
  fst (oshift_params fn cecVersion) <= fn ->
  (exists console,
     loadOShiftData fs stale Os dataPath dim fn cecVersion = Ok (Os, console))
  /\ OShiftSize dim fn cecVersion = snd (oshift_params fn cecVersion) * dim.
Proof.
  intros Hfn. unfold loadOShiftData, OShiftSize.
  destruct (oshift_params fn cecVersion) as [funcTreshold coeff].
  simpl in Hfn. destruct (Z.ltb_spec fn funcTreshold); [lia|].
  split; [|done]. by eexists.
Qed.

Lemma loadOShiftData_composite_witness :
  composite_shift_file (oshift_FileName "data" 9 2022)
  = Some {| numbers := repeat 1%float 24; trailing_space := true |}
  /\ (exists console,
        @loadOShiftData sample_machine composite_shift_file 0%float []
          "data" 2 9 2022
        = Ok ([], console))
  /\ @OShiftSize sample_machine 2 9 2022 = 12 * 2.
Proof.
  split; [reflexivity|].
  apply (@loadOShiftData_composite sample_machine composite_shift_file
           0%float [] "data" 2 9 2022).
  simpl. lia.
Defined.

(** The thresholds of the examples: 9 for the 2022 suite; 0 for the 2015
    suite, whose case leaves [funcTreshold] at its initial value; and -1
    for 2021, which has no case. *)
Lemma oshift_thresholds `{Unspecified} (fn : Z) :
  fst (oshift_params fn 2022) = 9
  /\ fst (oshift_params fn 2015) = 0
  /\ fst (oshift_params fn 2021) = -1.
Proof. done. Qed.

(** ** The query schema *)

Section Query.

Implicit Types (members : list (string * json)) (v : json).

Lemma validate_type t e c p r i mi f th v :
  validate (Schema (Some t) e c p r i mi f th) v = true -> has_type t v = true.
Proof.
  simpl. intros Hv. repeat (apply andb_prop in Hv as [Hv _]). done.
Qed.

Lemma validate_required t e c p r i mi f th members (name : string) :
  validate (Schema t e c p r i mi f th) (JObject members) = true ->
  In name r -> has_member name members = true.
Proof.
  simpl. intros Hv Hin.
  apply andb_prop in Hv as [Hv _]. apply andb_prop in Hv as [Hv _].
  apply andb_prop in Hv as [_ Hv]. apply andb_prop in Hv as [_ Hv].
  by apply (proj1 (forallb_forall _ _) Hv).
Qed.

Lemma validate_property t e c p r i mi f th members (name : string)
    (sub : schema) (val : json) :
  validate (Schema t e c p r i mi f th) (JObject members) = true ->
  In (name, sub) p -> In (name, val) members ->
  validate sub val = true.
Proof.
  simpl. intros Hv Hp Hm.
  apply andb_prop in Hv as [Hv _]. apply andb_prop in Hv as [Hv _].
  apply andb_prop in Hv as [_ Hv]. apply andb_prop in Hv as [Hv _].
  induction p as [|[name' sub'] p IH]; [done|].
  apply andb_prop in Hv as [Hhere Hrest].
  destruct Hp as [[= -> ->]|Hp]; [|by apply IH].
  pose proof (proj1 (forallb_forall _ _) Hhere _ Hm) as Hval.
  simpl in Hval. by rewrite String.eqb_refl in Hval.
Qed.

Lemma has_member_member (name : string) members :
  has_member name members = true ->
  exists val, member name members = Some val /\ In (name, val) members.
Proof.
  unfold has_member, member.
  induction members as [|[k val] members IH]; simpl; [done|].
  destruct (String.eqb_spec k name) as [->|Hk]; simpl.
  - intros _. exists val. split; [done|by left].
  - intros Hm. destruct (IH Hm) as (val' & Hf & Hin).
    exists val'. split; [done|by right].
Qed.

(** The part of the contract that the schema does enforce: an accepted
    message is an object with a [query_type] among the three values. *)
Lemma IOHquery_query_type v :
  validate IOHquery v = true ->
  exists members query_type,
    v = JObject members
    /\ member "query_type" members = Some (JString query_type)
    /\ (query_type = "call" \/ query_type = "new_run" \/ query_type = "stop")%string.
Proof.
  cbv [IOHquery with_type with_properties with_required with_enum with_const
       with_items with_minItems any].
  intros Hv. pose proof (validate_type _ _ _ _ _ _ _ _ _ _ Hv) as Hty.
  destruct v as [| | | |elements|members]; try discriminate Hty.
  destruct (has_member_member "query_type" members) as (val & Hval & Hin).
  { eapply validate_required; [exact Hv|by left]. }
  assert (Hen : validate (Schema (Some TString)
                            (Some ["call"; "new_run"; "stop"]%string)
                            None [] [] None None None None) val = true).
  { eapply validate_property; [exact Hv|by left|exact Hin]. }
  destruct val as [| | |q| |]; try discriminate Hen.
  exists members, q. split; [done|]. split; [done|].
  cbn in Hen. rewrite !andb_true_r, orb_false_r in Hen.
  apply orb_prop in Hen as [Hen|Hen]; [left; by apply String.eqb_eq|].
  apply orb_prop in Hen as [Hen|Hen]; [right; left|right; right];
    by apply String.eqb_eq.
Qed.

End Query.

(** C8.  The contract asks that a [call] query carry a [solution], an
    array of at least one number, and the comments of the schema say so.
    In the document the [if] and [then] keywords sit among the
    [properties], where they describe members named "if" and "then", and
    [minItems] sits in the schema of the items: the schema accepts a
    [call] query with no [solution] and one with an empty [solution],
    which the contract refuses.  It does reject a [query_type] outside
    the three values, and it accepts the minimal query of its header. *)
Theorem IOHquery_accepts_call_without_solution :
  (validate IOHquery call_without_solution = true
   /\ well_formed_query call_without_solution = false)
  /\ (validate IOHquery call_with_empty_solution = true
      /\ well_formed_query call_with_empty_solution = false)
  /\ (validate IOHquery minimal_call = true
      /\ well_formed_query minimal_call = true)
  /\ validate IOHquery (JObject [("query_type", JString "evaluate")]%string)
     = false.
Proof. repeat split. Qed.

(** ** The stages, coordinate by coordinate *)

Section Coordinates.

Implicit Types (x Os Mr : vec) (n i : nat).

Lemma shifted_lookup n x Os i :
  (i < n)%nat -> shifted n x Os !! i = Some (nth i x 0 - nth i Os 0)%float.
Proof. apply prefix_map_lookup_lt. Qed.

Lemma scaled_lookup n (sh_rate : float) x i :
  (i < n)%nat -> scaled n sh_rate x !! i = Some (nth i x 0 * sh_rate)%float.
Proof. apply prefix_map_lookup_lt. Qed.

Lemma rotated_lookup n x Mr i :
  (i < n)%nat -> rotated n x Mr !! i = Some (row_sum n x Mr i).
Proof. apply prefix_map_lookup_lt. Qed.

(** In dimension 2, row [i] is [0 + x0 * M(i,0) + x1 * M(i,1)]. *)
Example row_sum_2 (x0 x1 m00 m01 m10 m11 : float) :
  row_sum 2 [x0; x1] [m00; m01; m10; m11] 1 = (0 + x0 * m10 + x1 * m11)%float.
Proof. reflexivity. Qed.

End Coordinates.

(** ** The linear scale *)

Section LinearScale.

(** [index] clamps: whatever [v], an index lies between 0 and
    [size - 1]. *)
Lemma LinearRealScale_index_clamped (s : LinearRealScale.t) (v : float) (k : Z) :
  1 <= LinearRealScale.size s ->
  LinearRealScale.index s v = Some k ->
  0 <= k <= LinearRealScale.size s - 1.
Proof.
  intros Hs. unfold LinearRealScale.index, LinearRealScale.clamp.
  destruct (Prim2SF _) as [sg|[]| |sg m e];
    try destruct (LinearRealScale.floor _); simpl;
    intros [= <-]; lia.
Qed.

(** The example of section 8 of the specification. *)
Lemma LinearRealScale_spec_example :
  LinearRealScale.index LinearRealScale.percent 55 = Some 5
  /\ LinearRealScale.bounds LinearRealScale.percent 5 = (50, 60)%float.
Proof. split; reflexivity. Qed.

End LinearScale.

(** C7.  The round trip [index(bounds(i).lo) == i] does not hold for
    every linear scale over the reals.  With the formulas of the
    specification on doubles, [LinearRealScale(min=0, max=1, size=100)]
    sends the lower bound of bin 29 to bin 28 (and those of bins 58 and
    59 to 57 and 58): the bound [29 * 0.01] is the double just below
    0.29, and its quotient by 0.01 is just below 29.  On the scale of the
    example of the specification, [LinearRealScale(0, 100, 10)], the
    round trip holds for each of the ten bins. *)
Theorem LinearRealScale_round_trip_fails :
  LinearRealScale.index LinearRealScale.hundredths
    (fst (LinearRealScale.bounds LinearRealScale.hundredths 29)) = Some 28
  /\ LinearRealScale.index LinearRealScale.hundredths
       (fst (LinearRealScale.bounds LinearRealScale.hundredths 58)) = Some 57
  /\ LinearRealScale.index LinearRealScale.hundredths
       (fst (LinearRealScale.bounds LinearRealScale.hundredths 59)) = Some 58
  /\ Forall (fun i => LinearRealScale.index LinearRealScale.percent
                        (fst (LinearRealScale.bounds LinearRealScale.percent i))
                      = Some i)
            [0; 1; 2; 3; 4; 5; 6; 7; 8; 9].
Proof.
  split; [reflexivity|]. split; [reflexivity|]. split; [reflexivity|].
  repeat constructor.
Qed.

(** * Further properties of the code *)

(** ** The pipeline: sizes, edge cases, what is read *)

Section PipelineMore.

Implicit Types (x Os Mr : vec) (nx : Z) (sh_rate : float).

Lemma shiftfunc_length x Os nx x' :
  shiftfunc x Os nx = Ok x' -> length x' = length x.
Proof.
  unfold shiftfunc, for_int. intros H.
  apply (for_range_preserves (length (A:=float))) in H; [done|].
  intros j u u'. apply shift_body_length.
Qed.

Lemma rotatefunc_length x Mr nx x' :
  rotatefunc x Mr nx = Ok x' -> length x' = length x.
Proof.
  unfold rotatefunc. unfold for_int at 1. intros H.
  apply (for_range_preserves (length (A:=float))) in H; [done|].
  intros j u u'. apply rotate_body_length.
Qed.

Lemma sr_func_length x Os Mr sh_rate s_flag r_flag nx x' :
  sr_func x Os Mr sh_rate s_flag r_flag nx = Ok x' -> length x' = length x.
Proof.
  unfold sr_func. intros H.
  apply bind_Ok in H as (x1 & H1 & H). apply bind_Ok in H as (x2 & H2 & H).
  assert (length x1 = length x) as <-.
  { destruct s_flag; [by apply shiftfunc_length in H1|by injection H1 as <-]. }
  assert (length x2 = length x1) as <-.
  { unfold for_int in H2.
    apply (for_range_preserves (length (A:=float))) in H2; [done|].
    intros j u u'. apply scale_body_length. }
  destruct r_flag; [by apply rotatefunc_length in H|by injection H as <-].
Qed.

(** The sizes that decide, in numbers of iterations. *)
Lemma sr_func_returns x Os Mr sh_rate s_flag r_flag nx :
  (Z.to_nat nx <= length x)%nat ->
  (s_flag = true -> (Z.to_nat nx <= length Os)%nat) ->
  (r_flag = true -> (Z.to_nat nx * Z.to_nat nx <= length Mr)%nat) ->
  sr_func x Os Mr sh_rate s_flag r_flag nx
  = Ok (sr_spec x Os Mr sh_rate s_flag r_flag nx).
Proof.
  intros Hn HOs HMr. unfold sr_func, sr_spec.
  assert (H1 : (if s_flag then shiftfunc x Os nx else Ok x)
               = Ok (if s_flag then shifted (Z.to_nat nx) x Os else x)).
  { destruct s_flag; [|done]. apply shiftfunc_ok; [done|]. by apply HOs. }
  rewrite H1. simpl.
  set (x1 := if s_flag then _ else _).
  assert (Hx1 : length x1 = length x).
  { subst x1. destruct s_flag; [|done]. by apply prefix_map_length. }
  rewrite scale_ok by lia. simpl.
  destruct r_flag; [|done].
  apply rotatefunc_ok; [|by apply HMr].
  unfold scaled. rewrite prefix_map_length; lia.
Qed.

Lemma sr_func_throws x Os Mr sh_rate s_flag r_flag nx :
  (length x < Z.to_nat nx)%nat
  \/ (s_flag = true /\ (length Os < Z.to_nat nx)%nat)
  \/ (r_flag = true /\ (length Mr < Z.to_nat nx * Z.to_nat nx)%nat) ->
  sr_func x Os Mr sh_rate s_flag r_flag nx = Throw std_out_of_range.
Proof.
  intros H. apply sr_func_out_of_range.
  destruct H as [H|[[Hs H]|[Hr H]]]; [left; lia|right; left; split; [done|lia]|].
  right. right. split; [done|]. nia.
Qed.



Lemma sr_spec_tables x Os Mr sh_rate s_flag r_flag nx :
  sr_spec x (take (Z.to_nat nx) Os)
    (take (Z.to_nat nx * Z.to_nat nx) Mr) sh_rate s_flag r_flag nx
  = sr_spec x Os Mr sh_rate s_flag r_flag nx.
Proof.
  unfold sr_spec. set (n := Z.to_nat nx).
  assert (H1 : shifted n x (take n Os) = shifted n x Os).
  { unfold shifted. apply prefix_map_ext. intros i Hi. by rewrite nth_take. }
  rewrite H1. destruct r_flag; [|done].
  unfold rotated. apply prefix_map_ext. intros i Hi.
  unfold row_sum. apply foldl_seq_ext. intros b j Hj.
  rewrite nth_take; [done|nia].
Qed.

End PipelineMore.

Lemma sr_func_table_prefixes (x Os Mr : vec) (sh_rate : float)
    (s_flag r_flag : bool) (nx : Z) :
  sr_func x (take (Z.to_nat nx) Os) (take (Z.to_nat (nx * nx)) Mr)
    sh_rate s_flag r_flag nx
  = sr_func x Os Mr sh_rate s_flag r_flag nx.
Proof.
  destruct (Z.le_gt_cases nx 0) as [Hnx|Hnx].
  { rewrite !sr_func_returns by lia.
    unfold sr_spec, rotated, scaled, shifted.
    replace (Z.to_nat nx) with 0%nat by lia. by destruct s_flag, r_flag. }
  replace (Z.to_nat (nx * nx)) with (Z.to_nat nx * Z.to_nat nx)%nat by nia.
  set (n := Z.to_nat nx).
  destruct (decide ((n <= length x)%nat
                    /\ (s_flag = true -> (n <= length Os)%nat)
                    /\ (r_flag = true -> (n * n <= length Mr)%nat)))
    as [(Hx & HOs & HMr)|Hno].
  - rewrite (sr_func_returns x Os Mr) by done.
    rewrite sr_func_returns; [f_equal; apply sr_spec_tables|done| |].
    + intros Hs. rewrite length_take. specialize (HOs Hs). lia.
    + intros Hr. rewrite length_take. specialize (HMr Hr). lia.
  - assert (Hout : (length x < n)%nat
                   \/ (s_flag = true /\ (length Os < n)%nat)
                   \/ (r_flag = true /\ (length Mr < n * n)%nat)).
    { destruct (Nat.lt_ge_cases (length x) n); [by left|right].
      destruct s_flag, r_flag;
        destruct (Nat.lt_ge_cases (length Os) n);
        destruct (Nat.lt_ge_cases (length Mr) (n * n));
        try (left; split; [done|lia]); try (right; split; [done|lia]);
        exfalso; apply Hno; repeat split; try done; try lia; intros [=]. }
    rewrite (sr_func_throws x Os Mr) by done.
    apply sr_func_throws. rewrite !length_take.
    destruct Hout as [H|[[Hs H]|[Hr H]]];
      [left; lia|right; left; split; [done|lia]|right; right; split; [done|lia]].
Qed.

(** X1.  Whatever the tables and flags, a call of [shiftfunc],
    [rotatefunc] or [sr_func] that returns hands back a vector of the
    length it was given: no element is added or removed. *)
Theorem transforms_keep_length (x Os Mr x' : vec) (sh_rate : float)
    (s_flag r_flag : bool) (nx : Z) :
  (shiftfunc x Os nx = Ok x' -> length x' = length x)
  /\ (rotatefunc x Mr nx = Ok x' -> length x' = length x)
  /\ (sr_func x Os Mr sh_rate s_flag r_flag nx = Ok x' -> length x' = length x).
Proof.
  split; [apply shiftfunc_length|]. split; [apply rotatefunc_length|].
  apply sr_func_length.
Qed.

Lemma transforms_keep_length_witness :
  length [2; 0; 3]%float = length [1; 2; 3]%float.
Proof.
  apply (proj2 (proj2 (transforms_keep_length [1; 2; 3]%float [1; 1; 1]%float
                         [0; 1; 1; 0]%float [2; 0; 3]%float 2%float
                         true true 2))).
  reflexivity.
Defined.

(** X2.  A dimension [nx] that is zero or negative is not rejected: no
    loop body runs, no table is read (they may be empty), and [sr_func]
    returns [x] as it was. *)
Theorem sr_func_no_dimension (x Os Mr : vec) (sh_rate : float)
    (s_flag r_flag : bool) (nx : Z) :
  nx <= 0 -> sr_func x Os Mr sh_rate s_flag r_flag nx = Ok x.
Proof.
  intros Hnx. rewrite sr_func_returns by lia.
  unfold sr_spec, rotated, scaled, shifted.
  replace (Z.to_nat nx) with 0%nat by lia.
  by destruct s_flag, r_flag.
Qed.

Lemma sr_func_no_dimension_witness :
  sr_func [1; 2]%float [] [] 2%float true true (-3) = Ok [1; 2]%float.
Proof.
  apply (sr_func_no_dimension [1; 2]%float [] [] 2%float true true (-3)). lia.
Defined.

(** X3.  [sr_func] reads the first [nx] entries of the shift table and
    the first [nx * nx] entries of the matrix and nothing after them:
    cutting the tables to these sizes changes neither the result nor
    whether the call throws. *)
Theorem sr_func_reads_table_prefixes (x Os Mr : vec) (sh_rate : float)
    (s_flag r_flag : bool) (nx : Z) :
  sr_func x (take (Z.to_nat nx) Os) (take (Z.to_nat (nx * nx)) Mr)
    sh_rate s_flag r_flag nx
  = sr_func x Os Mr sh_rate s_flag r_flag nx.
Proof. apply sr_func_table_prefixes. Qed.



(** ** The loaders: what is appended *)

Section IntWrap.

Lemma int_wrap_small (z : Z) : INT_MIN <= z <= INT_MAX -> int_wrap z = z.
Proof.
  unfold INT_MIN, INT_MAX, int_wrap. intros Hz.
  rewrite Z.mod_small by lia. lia.
Qed.

Lemma int_wrap_range (z : Z) : INT_MIN <= int_wrap z <= INT_MAX.
Proof.
  unfold INT_MIN, INT_MAX, int_wrap.
  pose proof (Z.mod_pos_bound (z + 2 ^ 31) (2 ^ 32) ltac:(lia)). lia.
Qed.

(** Where the sizes leave the range of [int]: dimension 46341 in a known
    and in an unknown suite, and a negative dimension for a shuffle
    table. *)
Example sizes_wrap_like_int :
  @MatrixSize sample_machine 46341 1 2022 = -2147479015
  /\ @MatrixSize sample_machine 46341 1 2020 = 2147479015
  /\ @ShuffleSize sample_machine (-214748365) 1 2022 = 2147483646.
Proof. repeat split. Qed.

End IntWrap.

Section LoadersMore.

Context `{Unspecified}.
Implicit Types (fs : filesystem) (dataPath : string) (dim fn cecVersion : Z)
  (stale : float).

Lemma read_loop_values {A : Type} (convert : float -> A) fs (name : string)
    (t : table) (count : nat) stale (out : list A) :
  fs name = Some t ->
  fst (read_loop convert count (ifstream_open fs name) stale out)
  = out ++ values_read convert count t stale.
Proof.
  intros Hfs. unfold ifstream_open. rewrite Hfs. apply read_loop_good.
Qed.

Lemma values_read_complete {A : Type} (convert : float -> A) (count : nat)
    (t : table) stale :
  (count <= length (numbers t))%nat ->
  values_read convert count t stale = convert <$> take count (numbers t).
Proof.
  intros Hc. unfold values_read.
  replace (length (numbers t) <? count)%nat with false
    by (symmetry; apply Nat.ltb_ge; lia).
  by rewrite andb_false_r, app_nil_r.
Qed.


Lemma values_read_length {A : Type} (convert : float -> A) (count : nat)
    (t : table) stale :
  (length (values_read convert count t stale) <= count)%nat.
Proof.
  unfold values_read. rewrite length_app, length_fmap, length_take.
  destruct (trailing_space t); simpl; [|lia].
  destruct (Nat.ltb_spec (length (numbers t)) count); simpl; lia.
Qed.

Lemma values_read_none {A : Type} (convert : float -> A) (count : Z)
    (t : table) stale :
  count <= 0 -> values_read convert (Z.to_nat count) t stale = [].
Proof.
  intros Hc. apply length_zero_iff_nil.
  pose proof (values_read_length convert (Z.to_nat count) t stale). lia.
Qed.

Lemma loadMatrixData_file fs stale (Mr : vec) dataPath dim fn cecVersion t :
  fs (matrix_FileName dataPath dim fn cecVersion) = Some t ->
  loadMatrixData fs stale Mr dataPath dim fn cecVersion
  = Ok (Mr ++ values_read id (Z.to_nat (MatrixSize dim fn cecVersion)) t stale,
        []).
Proof.
  intros Hfs. unfold loadMatrixData.
  destruct (read_loop _ _ _ _ _) as [Mr' s'] eqn:Hloop.
  change Mr' with (fst (Mr', s')). rewrite <- Hloop.
  rewrite (read_loop_values _ _ _ t) by done.
  unfold ifstream_open. by rewrite Hfs.
Qed.

Lemma loadShuffleData_file fs stale (SS : list Z) dataPath dim fn cecVersion t :
  fs (shuffle_FileName dataPath dim fn cecVersion) = Some t ->
  loadShuffleData fs stale SS dataPath dim fn cecVersion
  = Ok (SS ++ values_read double_to_int
                (Z.to_nat (ShuffleSize dim fn cecVersion)) t stale, []).
Proof.
  intros Hfs. unfold loadShuffleData.
  destruct (read_loop _ _ _ _ _) as [SS' s'] eqn:Hloop.
  change SS' with (fst (SS', s')). rewrite <- Hloop.
  rewrite (read_loop_values _ _ _ t) by done.
  unfold ifstream_open. by rewrite Hfs.
Qed.

Lemma loadOShiftData_file fs stale (Os : vec) dataPath dim fn cecVersion t :
  fs (oshift_FileName dataPath fn cecVersion) = Some t ->
  fn < fst (oshift_params fn cecVersion) ->
  loadOShiftData fs stale Os dataPath dim fn cecVersion
  = Ok (Os ++ values_read id (Z.to_nat dim) t stale, []).
Proof.
  intros Hfs Hfn. unfold loadOShiftData, OShiftSize.
  destruct (oshift_params fn cecVersion) as [funcTreshold coeff].
  simpl in Hfn. destruct (Z.ltb_spec fn funcTreshold); [|lia].
  rewrite (read_loop_values _ _ _ t) by done.
  unfold ifstream_open. by rewrite Hfs.
Qed.

Lemma loadOShiftData_skips fs stale (Os : vec) dataPath dim fn cecVersion :
  fst (oshift_params fn cecVersion) <= fn ->
  exists console,
    loadOShiftData fs stale Os dataPath dim fn cecVersion = Ok (Os, console).
Proof.
  intros Hfn. unfold loadOShiftData.
  destruct (oshift_params fn cecVersion) as [funcTreshold coeff].
  simpl in Hfn. destruct (Z.ltb_spec fn funcTreshold); [lia|]. by eexists.
Qed.

Lemma loadMatrixData_missing fs stale (Mr : vec) dataPath dim fn cecVersion :
  fs (matrix_FileName dataPath dim fn cecVersion) = None ->
  exists console,
    loadMatrixData fs stale Mr dataPath dim fn cecVersion = Ok (Mr, console).
Proof.
  intros Hfs. unfold loadMatrixData. rewrite read_loop_closed by done.
  by eexists.
Qed.

Lemma loadOShiftData_missing fs stale (Os : vec) dataPath dim fn cecVersion :
  fs (oshift_FileName dataPath fn cecVersion) = None ->
  exists console,
    loadOShiftData fs stale Os dataPath dim fn cecVersion = Ok (Os, console).
Proof.
  intros Hfs. unfold loadOShiftData. rewrite read_loop_closed by done.
  destruct (oshift_params fn cecVersion) as [funcTreshold coeff].
  destruct (fn <? funcTreshold); by eexists.
Qed.

Lemma loadShuffleData_missing fs stale (SS : list Z) dataPath dim fn
    cecVersion :
  fs (shuffle_FileName dataPath dim fn cecVersion) = None ->
  exists console,
    loadShuffleData fs stale SS dataPath dim fn cecVersion = Ok (SS, console).
Proof.
  intros Hfs. unfold loadShuffleData. rewrite read_loop_closed by done.
  by eexists.
Qed.

Lemma MatrixSize_unknown (dim fn cecVersion : Z) :
  0 <= fn -> dim * dim <= INT_MAX ->
  cecVersion <> 2014 -> cecVersion <> 2015 -> cecVersion <> 2017 ->
  cecVersion <> 2019 -> cecVersion <> 2021 -> cecVersion <> 2022 ->
  MatrixSize dim fn cecVersion = - (dim * dim).
Proof.
  intros Hfn Hdim H14 H15 H17 H19 H21 H22. unfold MatrixSize, matrix_params.
  repeat (match goal with
          | |- context [?v =? ?c] => destruct (Z.eqb_spec v c); [lia|]
          end).
  destruct (Z.ltb_spec fn (-1)); [lia|].
  assert (0 <= dim * dim) by nia. unfold INT_MAX in Hdim.
  rewrite (int_wrap_small (dim * dim)) by (unfold INT_MIN, INT_MAX; lia).
  rewrite int_wrap_small by (unfold INT_MIN, INT_MAX; lia). lia.
Qed.

Lemma ShuffleSize_unknown (dim fn cecVersion : Z) :
  cecVersion <> 2014 -> cecVersion <> 2015 -> cecVersion <> 2017 ->
  cecVersion <> 2019 -> cecVersion <> 2021 -> cecVersion <> 2022 ->
  ShuffleSize dim fn cecVersion = 0.
Proof.
  intros H14 H15 H17 H19 H21 H22.
  unfold ShuffleSize, shuffleFlag, shuffle_coeff.
  repeat (match goal with
          | |- context [?v =? ?c] => destruct (Z.eqb_spec v c); [lia|]
          end).
  done.
Qed.

Lemma oshift_threshold_other (fn cecVersion : Z) :
  cecVersion <> 2014 -> cecVersion <> 2017 ->
  cecVersion <> 2019 -> cecVersion <> 2022 ->
  fst (oshift_params fn cecVersion) <= 0.
Proof.
  intros H14 H17 H19 H22. unfold oshift_params.
  repeat (match goal with
          | |- context [?v =? ?c] => destruct (Z.eqb_spec v c); try lia
          end); simpl; lia.
Qed.

End LoadersMore.

(** X5.  From a file that holds at least as many numbers as the size
    the loader computes (an [int]: the products are wrapped), each
    loader appends exactly the first numbers of the file, as many as
    that size and in the order of the file ([loadShuffleData] converts
    each one to [int]); nothing is written on the console. *)
Theorem complete_file_loaded_in_order `{Unspecified} (fs : filesystem)
    (staleM staleO staleS : float) (Mr Os : vec) (SS : list Z)
    (dataPath : string) (dim fn cecVersion : Z) (t : table) :
  (fs (matrix_FileName dataPath dim fn cecVersion) = Some t ->
   MatrixSize dim fn cecVersion <= Z.of_nat (length (numbers t)) ->
   loadMatrixData fs staleM Mr dataPath dim fn cecVersion
   = Ok (Mr ++ take (Z.to_nat (MatrixSize dim fn cecVersion)) (numbers t), []))
  /\ (fs (oshift_FileName dataPath fn cecVersion) = Some t ->
      fn < fst (oshift_params fn cecVersion) ->
      dim <= Z.of_nat (length (numbers t)) ->
      loadOShiftData fs staleO Os dataPath dim fn cecVersion
      = Ok (Os ++ take (Z.to_nat dim) (numbers t), []))
  /\ (fs (shuffle_FileName dataPath dim fn cecVersion) = Some t ->
      ShuffleSize dim fn cecVersion <= Z.of_nat (length (numbers t)) ->
      loadShuffleData fs staleS SS dataPath dim fn cecVersion
      = Ok (SS ++ (double_to_int
                     <$> take (Z.to_nat (ShuffleSize dim fn cecVersion))
                           (numbers t)), [])).
Proof.
  repeat split.
  - intros Hfs Hm. rewrite (loadMatrixData_file _ _ _ _ _ _ _ t) by done.
    rewrite values_read_complete by lia. by rewrite list_fmap_id.
  - intros Hfs Hfn Hm. rewrite (loadOShiftData_file _ _ _ _ _ _ _ t) by done.
    rewrite values_read_complete by lia. by rewrite list_fmap_id.
  - intros Hfs Hm. rewrite (loadShuffleData_file _ _ _ _ _ _ _ t) by done.
    by rewrite values_read_complete by lia.
Qed.

Lemma complete_file_loaded_in_order_witness :
  @loadMatrixData sample_machine complete_files 9%float [] "data" 2 1 2022
  = Ok ([1; 0; 0; 1]%float, [])
  /\ @loadOShiftData sample_machine complete_files 9%float [] "data" 2 1 2022
     = Ok ([5; -3]%float, [])
  /\ @loadShuffleData sample_machine complete_files 9%float [] "data" 2 6 2022
     = Ok ([2; 1], []).
Proof.
  split; [|split].
  - apply (proj1 (@complete_file_loaded_in_order sample_machine complete_files
                    9%float 9%float 9%float [] [] [] "data" 2 1 2022
                    {| numbers := [1; 0; 0; 1]%float; trailing_space := true |}));
      [reflexivity|vm_compute; (reflexivity || discriminate)].
  - apply (proj1 (proj2 (@complete_file_loaded_in_order sample_machine
                    complete_files 9%float 9%float 9%float [] [] []
                    "data" 2 1 2022
                    {| numbers := [5; -3; 7; 9]%float; trailing_space := true |})));
      [reflexivity|vm_compute; (reflexivity || discriminate)
      |vm_compute; (reflexivity || discriminate)].
  - apply (proj2 (proj2 (@complete_file_loaded_in_order sample_machine
                    complete_files 9%float 9%float 9%float [] [] []
                    "data" 2 6 2022
                    {| numbers := [2; 1]%float; trailing_space := false |})));
      [reflexivity|vm_compute; (reflexivity || discriminate)].
Defined.

(** X6.  A loader only appends: what the vector held on entry is still
    there, in front, and at most as many values follow it as the size
    the loader computes (an [int]: the products are wrapped), none when
    that size is zero or negative.  Calling a loader twice on the same
    vector therefore accumulates two tables. *)
Theorem loaders_only_append `{Unspecified} (fs : filesystem)
    (staleM staleO staleS : float) (Mr Os : vec) (SS : list Z)
    (dataPath : string) (dim fn cecVersion : Z) :
  (exists new console,
     loadMatrixData fs staleM Mr dataPath dim fn cecVersion
     = Ok (Mr ++ new, console)
     /\ (length new <= Z.to_nat (MatrixSize dim fn cecVersion))%nat)
  /\ (exists new console,
        loadOShiftData fs staleO Os dataPath dim fn cecVersion
        = Ok (Os ++ new, console)
        /\ (length new <= Z.to_nat dim)%nat)
  /\ (exists new console,
        loadShuffleData fs staleS SS dataPath dim fn cecVersion
        = Ok (SS ++ new, console)
        /\ (length new <= Z.to_nat (ShuffleSize dim fn cecVersion))%nat).
Proof.
  repeat split.
  - destruct (fs (matrix_FileName dataPath dim fn cecVersion)) as [t|] eqn:Hfs.
    + eexists _, _. split; [by apply loadMatrixData_file|].
      apply values_read_length.
    + destruct (loadMatrixData_missing fs staleM Mr dataPath dim fn
                  cecVersion Hfs) as [console Hload].
      exists [], console. rewrite app_nil_r. split; [done|simpl; lia].
  - destruct (Z.lt_ge_cases fn (fst (oshift_params fn cecVersion))) as [Hfn|Hfn].
    + destruct (fs (oshift_FileName dataPath fn cecVersion)) as [t|] eqn:Hfs.
      * eexists _, _. split; [by apply loadOShiftData_file|].
        apply values_read_length.
      * destruct (loadOShiftData_missing fs staleO Os dataPath dim fn
                    cecVersion Hfs) as [console Hload].
        exists [], console. rewrite app_nil_r. split; [done|simpl; lia].
    + destruct (loadOShiftData_skips fs staleO Os dataPath dim fn
                  cecVersion Hfn) as [console Hload].
      exists [], console. rewrite app_nil_r. split; [done|simpl; lia].
  - destruct (fs (shuffle_FileName dataPath dim fn cecVersion)) as [t|] eqn:Hfs.
    + eexists _, _. split; [by apply loadShuffleData_file|].
      apply values_read_length.
    + destruct (loadShuffleData_missing fs staleS SS dataPath dim fn
                  cecVersion Hfs) as [console Hload].
      exists [], console. rewrite app_nil_r. split; [done|simpl; lia].
Qed.

(** X7.  The suites the loaders know are few.  For a function number
    that is not negative: with a [cecVersion] other than 2014, 2015,
    2017, 2019, 2021 and 2022, [loadShuffleData] appends nothing, and
    [loadMatrixData] appends nothing as long as [dim * dim] is within
    [int] (beyond, the size [dim * dim * -1] can wrap to a positive
    number and the file is read); [loadOShiftData] appends nothing for
    every [cecVersion] other than 2014, 2017, 2019 and 2022, the 2015 and
    2021 suites included.  No error is raised. *)
Theorem other_suites_load_nothing `{Unspecified} (fs : filesystem)
    (staleM staleO staleS : float) (Mr Os : vec) (SS : list Z)
    (dataPath : string) (dim fn cecVersion : Z) :
  0 <= fn ->
  (cecVersion <> 2014 /\ cecVersion <> 2015 /\ cecVersion <> 2017
   /\ cecVersion <> 2019 /\ cecVersion <> 2021 /\ cecVersion <> 2022 ->
   (dim * dim <= INT_MAX ->
    exists console,
      loadMatrixData fs staleM Mr dataPath dim fn cecVersion = Ok (Mr, console))
   /\ (exists console,
         loadShuffleData fs staleS SS dataPath dim fn cecVersion
         = Ok (SS, console)))
  /\ (cecVersion <> 2014 /\ cecVersion <> 2017
      /\ cecVersion <> 2019 /\ cecVersion <> 2022 ->
      exists console,
        loadOShiftData fs staleO Os dataPath dim fn cecVersion
        = Ok (Os, console)).
Proof.
  intros Hfn. split.
  - intros (H14 & H15 & H17 & H19 & H21 & H22). split.
    + intros Hdim.
      destruct (fs (matrix_FileName dataPath dim fn cecVersion)) as [t|] eqn:Hfs;
        [|by apply loadMatrixData_missing].
      exists []. rewrite (loadMatrixData_file _ _ _ _ _ _ _ t) by done.
      rewrite values_read_none, app_nil_r; [done|].
      rewrite MatrixSize_unknown by done. nia.
    + destruct (fs (shuffle_FileName dataPath dim fn cecVersion)) as [t|] eqn:Hfs;
        [|by apply loadShuffleData_missing].
      exists []. rewrite (loadShuffleData_file _ _ _ _ _ _ _ t) by done.
      rewrite values_read_none, app_nil_r; [done|].
      by rewrite ShuffleSize_unknown.
  - intros (H14 & H17 & H19 & H22). apply loadOShiftData_skips.
    pose proof (oshift_threshold_other fn cecVersion H14 H17 H19 H22). lia.
Qed.

Lemma other_suites_load_nothing_witness :
  ((exists console,
      @loadMatrixData sample_machine every_file 9%float [] "data" 2 1 2020
      = Ok ([], console))
   /\ (exists console,
         @loadShuffleData sample_machine every_file 9%float [] "data" 2 1 2020
         = Ok ([], console)))
  /\ (exists console,
        @loadOShiftData sample_machine every_file 9%float [] "data" 2 1 2021
        = Ok ([], console)).
Proof.
  split; [split|].
  - apply (proj1 (proj1 (@other_suites_load_nothing sample_machine every_file
                    9%float 9%float 9%float [] [] [] "data" 2 1 2020
                    ltac:(lia)) ltac:(lia))).
    vm_compute. discriminate.
  - apply (proj2 (proj1 (@other_suites_load_nothing sample_machine every_file
                    9%float 9%float 9%float [] [] [] "data" 2 1 2020
                    ltac:(lia)) ltac:(lia))).
  - apply (proj2 (@other_suites_load_nothing sample_machine every_file
                    9%float 9%float 9%float [] [] [] "data" 2 1 2021
                    ltac:(lia))).
    lia.
Defined.

(** X8.  Tables that the loaders fill from complete files are large
    enough for the pipeline: for a function below both thresholds, a
    dimension whose square is within [int], a shift file with at least
    [dim] numbers and a matrix file with at least [dim * dim], the
    loaded [Os] and [Mr] make [sr_func] return on every [x] of at least
    [dim] coordinates, with the result that the numbers of the two files
    determine. *)
Theorem loaded_tables_fit `{Unspecified} (fs : filesystem)
    (staleO staleM : float) (dataPath : string)
    (dim fn cecVersion : Z) (tO tM : table) (x : vec) (sh_rate : float)
    (s_flag r_flag : bool) :
  fs (oshift_FileName dataPath fn cecVersion) = Some tO ->
  fs (matrix_FileName dataPath dim fn cecVersion) = Some tM ->
  fn < fst (oshift_params fn cecVersion) ->
  fn < fst (matrix_params fn cecVersion) ->
  dim * dim <= INT_MAX ->
  dim <= Z.of_nat (length (numbers tO)) ->
  dim * dim <= Z.of_nat (length (numbers tM)) ->
  dim <= Z.of_nat (length x) ->
  exists Os Mr,
    loadOShiftData fs staleO [] dataPath dim fn cecVersion = Ok (Os, [])
    /\ loadMatrixData fs staleM [] dataPath dim fn cecVersion = Ok (Mr, [])
    /\ sr_func x Os Mr sh_rate s_flag r_flag dim
       = Ok (sr_spec x (numbers tO) (numbers tM) sh_rate s_flag r_flag dim).
Proof.
  intros HfO HfM HtO HtM Hint HO HM Hx.
  assert (HS : MatrixSize dim fn cecVersion = dim * dim).
  { unfold MatrixSize. destruct (matrix_params fn cecVersion) as [thr coeff].
    simpl in HtM. destruct (Z.ltb_spec fn thr); [|lia].
    apply int_wrap_small. unfold INT_MIN. nia. }
  exists (take (Z.to_nat dim) (numbers tO)),
         (take (Z.to_nat (dim * dim)) (numbers tM)).
  split; [|split].
  - rewrite (loadOShiftData_file _ _ _ _ _ _ _ tO) by done.
    by rewrite values_read_complete, list_fmap_id by lia.
  - rewrite (loadMatrixData_file _ _ _ _ _ _ _ tM), HS by done.
    by rewrite values_read_complete, list_fmap_id by lia.
  - rewrite sr_func_table_prefixes. apply sr_func_returns; nia.
Qed.

Lemma loaded_tables_fit_witness :
  exists Os Mr,
    @loadOShiftData sample_machine complete_files 9%float [] "data" 2 1 2022
    = Ok (Os, [])
    /\ @loadMatrixData sample_machine complete_files 9%float [] "data" 2 1 2022
       = Ok (Mr, [])
    /\ sr_func [10; 20]%float Os Mr 1%float true true 2
       = Ok (sr_spec [10; 20]%float [5; -3; 7; 9]%float [1; 0; 0; 1]%float
               1%float true true 2).
Proof.
  apply (@loaded_tables_fit sample_machine complete_files 9%float 9%float
           "data" 2 1 2022
           {| numbers := [5; -3; 7; 9]%float; trailing_space := true |}
           {| numbers := [1; 0; 0; 1]%float; trailing_space := true |}
           [10; 20]%float 1%float true true);
    vm_compute; (reflexivity || discriminate).
Defined.

(** X9.  A table that a loader left empty is found out only when the
    pipeline runs.  After a matrix file that could not be opened, every
    [sr_func] with rotation on and [nx >= 1] throws [std::out_of_range];
    after [loadOShiftData] on a function at or above the threshold, every
    [sr_func] with shift on and [nx >= 1] does. *)
Theorem empty_tables_throw_at_evaluation `{Unspecified} (fs : filesystem)
    (stale : float) (dataPath : string) (dim fn cecVersion : Z) :
  (fs (matrix_FileName dataPath dim fn cecVersion) = None ->
   exists console,
     loadMatrixData fs stale [] dataPath dim fn cecVersion = Ok ([], console)
     /\ forall (x Os : vec) (sh_rate : float) (s_flag : bool) (nx : Z),
          1 <= nx ->
          sr_func x Os [] sh_rate s_flag true nx = Throw std_out_of_range)
  /\ (fst (oshift_params fn cecVersion) <= fn ->
      exists console,
        loadOShiftData fs stale [] dataPath dim fn cecVersion = Ok ([], console)
        /\ forall (x Mr : vec) (sh_rate : float) (r_flag : bool) (nx : Z),
             1 <= nx ->
             sr_func x [] Mr sh_rate true r_flag nx = Throw std_out_of_range).
Proof.
  split.
  - intros Hfs.
    destruct (loadMatrixData_missing fs stale [] dataPath dim fn cecVersion Hfs)
      as [console Hload].
    exists console. split; [done|]. intros x Os sh_rate s_flag nx Hnx.
    apply sr_func_throws. right. right. split; [done|]. simpl. nia.
  - intros Hfn.
    destruct (loadOShiftData_skips fs stale [] dataPath dim fn cecVersion Hfn)
      as [console Hload].
    exists console. split; [done|]. intros x Mr sh_rate r_flag nx Hnx.
    apply sr_func_throws. right. left. split; [done|]. simpl. lia.
Qed.

Lemma empty_tables_throw_at_evaluation_witness :
  (exists console,
     @loadMatrixData sample_machine no_files 9%float [] "data" 2 1 2022
     = Ok ([], console)
     /\ forall (x Os : vec) (sh_rate : float) (s_flag : bool) (nx : Z),
          1 <= nx ->
          sr_func x Os [] sh_rate s_flag true nx = Throw std_out_of_range)
  /\ (exists console,
        @loadOShiftData sample_machine every_file 9%float [] "data" 2 9 2022
        = Ok ([], console)
        /\ forall (x Mr : vec) (sh_rate : float) (r_flag : bool) (nx : Z),
             1 <= nx ->
             sr_func x [] Mr sh_rate true r_flag nx = Throw std_out_of_range).
Proof.
  split.
  - apply (proj1 (@empty_tables_throw_at_evaluation sample_machine no_files
                    9%float "data" 2 1 2022)).
    reflexivity.
  - apply (proj2 (@empty_tables_throw_at_evaluation sample_machine every_file
                    9%float "data" 2 9 2022)).
    vm_compute. discriminate.
Defined.

(** ** The two schemas: what an accepted message looks like *)

Section SchemasMore.

Implicit Types (members : list (string * json)) (v val : json).

Lemma validate_integer e c p r i mi f th val :
  validate (Schema (Some TInteger) e c p r i mi f th) val = true ->
  exists q, val = JNumber q /\ is_integer q = true.
Proof.
  intros Hv. apply validate_type in Hv.
  destruct val; try discriminate Hv. by eexists.
Qed.

Lemma validate_string e c p r i mi f th val :
  validate (Schema (Some TString) e c p r i mi f th) val = true ->
  exists s, val = JString s.
Proof.
  intros Hv. apply validate_type in Hv.
  destruct val; try discriminate Hv. by eexists.
Qed.

Lemma validate_object e c p r i mi f th v :
  validate (Schema (Some TObject) e c p r i mi f th) v = true ->
  exists members, v = JObject members.
Proof.
  intros Hv. apply validate_type in Hv.
  destruct v; try discriminate Hv. by eexists.
Qed.

Lemma validate_enum3 (a b c : string) val :
  validate (Schema (Some TString) (Some [a; b; c]) None [] [] None None None None)
    val = true ->
  exists s, val = JString s /\ (s = a \/ s = b \/ s = c).
Proof.
  intros Hv. destruct val as [| | |s| |]; try discriminate Hv.
  exists s. split; [done|].
  cbn in Hv. rewrite !andb_true_r, orb_false_r in Hv.
  apply orb_prop in Hv as [Hv|Hv]; [left; by apply String.eqb_eq|].
  apply orb_prop in Hv as [Hv|Hv]; [right; left|right; right];
    by apply String.eqb_eq.
Qed.

(** The shape that the two schemas share: an object type, a required
    discriminating member with three values, and the three optional
    members [id], [timestamp] and [remarks]. *)
Lemma tagged_message_shape (tag a b c : string)
    (ps : list (string * schema)) v :
  In (tag, with_type TString (with_enum [a; b; c] any)) ps ->
  In ("id"%string, with_type TInteger any) ps ->
  In ("timestamp"%string, with_type TString any) ps ->
  In ("remarks"%string, with_type TString any) ps ->
  validate (Schema (Some TObject) None None ps [tag] None None None None) v
  = true ->
  exists members s,
    v = JObject members
    /\ member tag members = Some (JString s)
    /\ (s = a \/ s = b \/ s = c)
    /\ (forall val, In ("id"%string, val) members ->
          exists q, val = JNumber q /\ is_integer q = true)
    /\ (forall val, In ("timestamp"%string, val) members ->
          exists t, val = JString t)
    /\ (forall val, In ("remarks"%string, val) members ->
          exists t, val = JString t).
Proof.
  intros Htag Hid Hts Hrem Hv.
  destruct (validate_object _ _ _ _ _ _ _ _ _ Hv) as [members ->].
  destruct (has_member_member tag members) as (val & Hval & Hin).
  { eapply validate_required; [exact Hv|by left]. }
  destruct (validate_enum3 a b c val) as (s & -> & Hs).
  { eapply validate_property; [exact Hv|exact Htag|exact Hin]. }
  exists members, s. split; [done|]. split; [done|]. split; [done|].
  split; [|split]; intros val Hm.
  - eapply validate_integer, validate_property; [exact Hv|exact Hid|exact Hm].
  - eapply validate_string, validate_property; [exact Hv|exact Hts|exact Hm].
  - eapply validate_string, validate_property; [exact Hv|exact Hrem|exact Hm].
Qed.

End SchemasMore.

(** X10.  A message that the query schema accepts is an object with a
    [query_type] that is one of the strings call, new_run and stop; its
    [id], when present, is an integer number, and its [timestamp] and
    [remarks], when present, are strings. *)
Theorem accepted_query_shape (v : json) :
  validate IOHquery v = true ->
  exists members query_type,
    v = JObject members
    /\ member "query_type" members = Some (JString query_type)
    /\ (query_type = "call" \/ query_type = "new_run" \/ query_type = "stop")%string
    /\ (forall val, In ("id"%string, val) members ->
          exists q, val = JNumber q /\ is_integer q = true)
    /\ (forall val, In ("timestamp"%string, val) members ->
          exists t, val = JString t)
    /\ (forall val, In ("remarks"%string, val) members ->
          exists t, val = JString t).
Proof.
  apply tagged_message_shape; simpl; tauto.
Qed.

Lemma accepted_query_shape_witness :
  exists members query_type,
    complete_call = JObject members
    /\ member "query_type" members = Some (JString query_type)
    /\ (query_type = "call" \/ query_type = "new_run" \/ query_type = "stop")%string
    /\ (forall val, In ("id"%string, val) members ->
          exists q, val = JNumber q /\ is_integer q = true)
    /\ (forall val, In ("timestamp"%string, val) members ->
          exists t, val = JString t)
    /\ (forall val, In ("remarks"%string, val) members ->
          exists t, val = JString t).
Proof. apply (accepted_query_shape complete_call). reflexivity. Defined.

Section SchemasIgnore.

Implicit Types (members : list (string * json)) (val : json) (k : string).

Lemma has_member_other k val (name : string) members1 members2 :
  k <> name ->
  has_member name (members1 ++ (k, val) :: members2)
  = has_member name (members1 ++ members2).
Proof.
  intros Hk. unfold has_member. rewrite !existsb_app. simpl.
  by destruct (String.eqb_spec k name).
Qed.

(** A schema without [if] looks at a member of an object only through
    the entry of [properties] that bears its name and through
    [required]. *)
Lemma validate_other_member t e c ps req i mi k val members1 members2 :
  Forall (fun p => k <> fst p) ps ->
  Forall (fun name => k <> name) req ->
  validate (Schema t e c ps req i mi None None)
    (JObject (members1 ++ (k, val) :: members2))
  = validate (Schema t e c ps req i mi None None)
      (JObject (members1 ++ members2)).
Proof.
  intros Hps Hreq. simpl. rewrite !andb_true_r.
  replace (match t with
           | Some t0 => has_type t0 (JObject (members1 ++ (k, val) :: members2))
           | None => true
           end)
    with (match t with
          | Some t0 => has_type t0 (JObject (members1 ++ members2))
          | None => true
          end) by (by destruct t as [[]|]).
  f_equal. f_equal.
  - induction Hps as [|[name sub] ps Hk Hps IH]; [done|].
    rewrite IH. f_equal. rewrite !forallb_app. simpl in *.
    by destruct (String.eqb_spec k name).
  - induction Hreq as [|name req Hk Hreq IH]; [done|].
    simpl. by rewrite IH, has_member_other.
Qed.

End SchemasIgnore.

(** X11.  The query schema looks at no member other than [query_type],
    [id], [timestamp], [remarks], [if] and [then]: adding, removing or
    changing a member of any other name, [solution] among them, does not
    change whether a message is accepted. *)
Theorem IOHquery_ignores_other_members (k : string) (val : json)
    (members1 members2 : list (string * json)) :
  (k <> "query_type" /\ k <> "if" /\ k <> "then"
   /\ k <> "id" /\ k <> "timestamp" /\ k <> "remarks")%string ->
  validate IOHquery (JObject (members1 ++ (k, val) :: members2))
  = validate IOHquery (JObject (members1 ++ members2)).
Proof.
  intros (H1 & H2 & H3 & H4 & H5 & H6).
  apply validate_other_member; repeat constructor; done.
Qed.

Lemma IOHquery_ignores_other_members_witness :
  validate IOHquery
    (JObject ([("query_type", JString "call")]
              ++ ("solution", JString "none") :: [("id", JNumber 1)]))%string
  = validate IOHquery
      (JObject ([("query_type", JString "call")] ++ [("id", JNumber 1)]))%string.
Proof.
  apply (IOHquery_ignores_other_members "solution" (JString "none")
           [("query_type", JString "call")]%string [("id", JNumber 1)]%string).
  repeat split; discriminate.
Defined.

(** X12.  A message that the reply schema accepts, under either reading
    of its repeated keys, is an object with a [reply_type] that is one of
    the strings value, ack and error; its [id], when present, is an
    integer number, and its [timestamp] and [remarks], when present, are
    strings. *)
Theorem accepted_reply_shape (v : json) :
  validate IOHreply v = true \/ validate IOHreply_last_key v = true ->
  exists members reply_type,
    v = JObject members
    /\ member "reply_type" members = Some (JString reply_type)
    /\ (reply_type = "value" \/ reply_type = "ack" \/ reply_type = "error")%string
    /\ (forall val, In ("id"%string, val) members ->
          exists q, val = JNumber q /\ is_integer q = true)
    /\ (forall val, In ("timestamp"%string, val) members ->
          exists t, val = JString t)
    /\ (forall val, In ("remarks"%string, val) members ->
          exists t, val = JString t).
Proof.
  intros [Hv|Hv]; revert Hv; apply tagged_message_shape; simpl; tauto.
Qed.

Lemma accepted_reply_shape_witness :
  exists members reply_type,
    value_reply = JObject members
    /\ member "reply_type" members = Some (JString reply_type)
    /\ (reply_type = "value" \/ reply_type = "ack" \/ reply_type = "error")%string
    /\ (forall val, In ("id"%string, val) members ->
          exists q, val = JNumber q /\ is_integer q = true)
    /\ (forall val, In ("timestamp"%string, val) members ->
          exists t, val = JString t)
    /\ (forall val, In ("remarks"%string, val) members ->
          exists t, val = JString t).
Proof. apply (accepted_reply_shape value_reply). left. reflexivity. Defined.

(** X13.  Under either reading of its repeated keys, the reply schema
    looks at no member other than [reply_type], [id], [timestamp],
    [remarks], [if] and [then]: a member of any other name can be added,
    removed or changed without effect, and a reply made of a
    [reply_type] among value, ack and error and of members of other
    names only is accepted.  So [value], [message], [code] and
    [solution] are neither required nor checked: a [value] reply with no
    [value] and an [error] reply with no [message] are accepted. *)
Theorem IOHreply_ignores_other_members :
  (forall (k : string) (val : json) (members1 members2 : list (string * json)),
     (k <> "reply_type" /\ k <> "if" /\ k <> "then"
      /\ k <> "id" /\ k <> "timestamp" /\ k <> "remarks")%string ->
     validate IOHreply (JObject (members1 ++ (k, val) :: members2))
     = validate IOHreply (JObject (members1 ++ members2))
     /\ validate IOHreply_last_key (JObject (members1 ++ (k, val) :: members2))
        = validate IOHreply_last_key (JObject (members1 ++ members2)))
  /\ (forall (reply_type : string) (others : list (string * json)),
        (reply_type = "value" \/ reply_type = "ack" \/ reply_type = "error")%string ->
        Forall (fun m =>
                  (fst m <> "reply_type" /\ fst m <> "if" /\ fst m <> "then"
                   /\ fst m <> "id" /\ fst m <> "timestamp"
                   /\ fst m <> "remarks")%string) others ->
        validate IOHreply
          (JObject (("reply_type"%string, JString reply_type) :: others)) = true
        /\ validate IOHreply_last_key
             (JObject (("reply_type"%string, JString reply_type) :: others))
           = true).
Proof.
  assert (Hignore :
    forall (k : string) (val : json) (members1 members2 : list (string * json)),
      (k <> "reply_type" /\ k <> "if" /\ k <> "then"
       /\ k <> "id" /\ k <> "timestamp" /\ k <> "remarks")%string ->
      validate IOHreply (JObject (members1 ++ (k, val) :: members2))
      = validate IOHreply (JObject (members1 ++ members2))
      /\ validate IOHreply_last_key (JObject (members1 ++ (k, val) :: members2))
         = validate IOHreply_last_key (JObject (members1 ++ members2))).
  { intros k val members1 members2 (H1 & H2 & H3 & H4 & H5 & H6).
    split; apply validate_other_member; repeat constructor; done. }
  split; [exact Hignore|].
  intros reply_type others Hrt Hothers.
  induction Hothers as [|[k val] others Hk Hothers IH].
  - destruct Hrt as [-> | [-> | ->]]; split; reflexivity.
  - destruct (Hignore k val [("reply_type"%string, JString reply_type)] others Hk)
      as [Hall Hlast].
    destruct IH as [IHall IHlast].
    split; [etrans; [exact Hall|exact IHall]|etrans; [exact Hlast|exact IHlast]].
Qed.

Lemma IOHreply_ignores_other_members_witness :
  (validate IOHreply (JObject [("reply_type", JString "value")]%string) = true
   /\ validate IOHreply_last_key
        (JObject [("reply_type", JString "value")]%string) = true)
  /\ (validate IOHreply
        (JObject [("reply_type", JString "error"); ("code", JNumber 3)]%string)
      = true
      /\ validate IOHreply_last_key
           (JObject [("reply_type", JString "error"); ("code", JNumber 3)]%string)
         = true)
  /\ (validate IOHreply
        (JObject ([("reply_type", JString "error")]
                  ++ ("message", JNumber 3) :: [("id", JNumber 7)]))%string
      = validate IOHreply error_without_message
      /\ validate IOHreply_last_key
           (JObject ([("reply_type", JString "error")]
                     ++ ("message", JNumber 3) :: [("id", JNumber 7)]))%string
         = validate IOHreply_last_key error_without_message).
Proof.
  split; [|split].
  - apply (proj2 IOHreply_ignores_other_members "value"%string []);
      [by left|constructor].
  - apply (proj2 IOHreply_ignores_other_members "error"%string
             [("code", JNumber 3)]%string);
      [by right; right|].
    repeat constructor; discriminate.
  - apply (proj1 IOHreply_ignores_other_members "message"%string (JNumber 3)
             [("reply_type", JString "error")]%string [("id", JNumber 7)]%string).
    repeat split; discriminate.
Defined.

(** ** The names of the table files *)

Section FileNames.

Lemma string_of_uint_digits (d : Decimal.uint) :
  all_chars sign_or_digit (NilEmpty.string_of_uint d) = true.
Proof. induction d; simpl; done. Qed.

Lemma to_string_chars (z : Z) : all_chars sign_or_digit (to_string z) = true.
Proof.
  unfold to_string. destruct z as [|p|p]; [done| |].
  - simpl. destruct (Pos.to_uint p) eqn:Hp; try apply string_of_uint_digits.
    done.
  - simpl. destruct (Pos.to_uint p) eqn:Hp; try apply string_of_uint_digits.
    done.
Qed.

Lemma to_string_inj (z z' : Z) : to_string z = to_string z' -> z = z'.
Proof.
  unfold to_string. intros Hs.
  assert (Hnn : forall y, Z.to_int y <> Decimal.Pos Decimal.Nil
                          /\ Z.to_int y <> Decimal.Neg Decimal.Nil).
  { intros [|p|p]; split; try discriminate; simpl; intros [= Hp];
      by apply (DecimalPos.Unsigned.to_uint_nonnil p). }
  assert (Hi : Some (Z.to_int z) = Some (Z.to_int z')).
  { rewrite <- (NilZero.isi (Z.to_int z)), <- (NilZero.isi (Z.to_int z'));
      try apply Hnn. by rewrite Hs. }
  injection Hi as Hi.
  by rewrite <- (DecimalZ.of_to z), <- (DecimalZ.of_to z'), Hi.
Qed.

Lemma append_cancel_l (p a b : string) :
  (p ++ a)%string = (p ++ b)%string -> a = b.
Proof. induction p as [|c p IH]; simpl; [done|]. intros [= H]. by apply IH. Qed.

(** Two numerals followed by the same separator, which is neither a
    sign nor a digit, end at the same place. *)
Lemma numeral_then_separator (a a' : string) (c : ascii) (r r' : string) :
  all_chars sign_or_digit a = true -> all_chars sign_or_digit a' = true ->
  sign_or_digit c = false ->
  (a ++ String c r)%string = (a' ++ String c r')%string ->
  a = a' /\ r = r'.
Proof.
  intros Ha Ha' Hc. revert a' Ha'.
  induction a as [|x a IH]; intros [|x' a'] Ha'; simpl.
  - by intros [= ->].
  - intros [= -> _]. simpl in Ha'. by rewrite Hc in Ha'.
  - intros [= -> _]. simpl in Ha. by rewrite Hc in Ha.
  - intros [= -> H]. simpl in Ha, Ha'.
    apply andb_prop in Ha as [_ Ha]. apply andb_prop in Ha' as [_ Ha'].
    destruct (IH Ha a' Ha' H) as [-> ->]. done.
Qed.

Lemma numeral_separator_inj (z z' : Z) (c : ascii) (r r' : string) :
  sign_or_digit c = false ->
  (to_string z ++ String c r)%string = (to_string z' ++ String c r')%string ->
  z = z' /\ r = r'.
Proof.
  intros Hc H.
  apply numeral_then_separator in H as [Hz Hr];
    [|apply to_string_chars|apply to_string_chars|done].
  split; [by apply to_string_inj|done].
Qed.

End FileNames.

(** X14.  Under one data directory, the name of a table file determines
    its suite, function and dimension (suite and function for a shift
    table, whose name has no dimension), and no name is shared between
    the three kinds of table: two different tables are never read from
    the same file. *)
Theorem table_file_names_distinct (dataPath : string)
    (dim fn cecVersion dim' fn' cecVersion' : Z) :
  (matrix_FileName dataPath dim fn cecVersion
   = matrix_FileName dataPath dim' fn' cecVersion' ->
   dim = dim' /\ fn = fn' /\ cecVersion = cecVersion')
  /\ (oshift_FileName dataPath fn cecVersion
      = oshift_FileName dataPath fn' cecVersion' ->
      fn = fn' /\ cecVersion = cecVersion')
  /\ (shuffle_FileName dataPath dim fn cecVersion
      = shuffle_FileName dataPath dim' fn' cecVersion' ->
      dim = dim' /\ fn = fn' /\ cecVersion = cecVersion')
  /\ matrix_FileName dataPath dim fn cecVersion
     <> oshift_FileName dataPath fn' cecVersion'
  /\ matrix_FileName dataPath dim fn cecVersion
     <> shuffle_FileName dataPath dim' fn' cecVersion'
  /\ oshift_FileName dataPath fn cecVersion
     <> shuffle_FileName dataPath dim' fn' cecVersion'.
Proof.
  unfold matrix_FileName, oshift_FileName, shuffle_FileName.
  split; [|split; [|split; [|split; [|split]]]]; intros H;
    apply append_cancel_l in H; simpl in H; injection H as H;
    apply numeral_separator_inj in H as [Hv H]; try done.
  - injection H as H.
    apply numeral_separator_inj in H as [Hf H]; [|done]. injection H as H.
    by apply (numeral_separator_inj dim dim' "." "txt" "txt") in H as [Hd _].
  - repeat (injection H as H).
    by apply (numeral_separator_inj fn fn' "." "txt" "txt") in H as [Hf _].
  - repeat (injection H as H).
    apply numeral_separator_inj in H as [Hf H]; [|done]. injection H as H.
    by apply (numeral_separator_inj dim dim' "." "txt" "txt") in H as [Hd _].
Qed.

(** ** Rotation and NaN *)

Section RotationNaN.

Lemma float_mul_nan_l (b : float) : (nan * b = nan)%float.
Proof. apply Prim2SF_inj. by rewrite mul_spec. Qed.

Lemma float_add_nan_l (b : float) : (nan + b = nan)%float.
Proof. apply Prim2SF_inj. by rewrite add_spec. Qed.

Lemma float_add_nan_r (a : float) : (a + nan = nan)%float.
Proof.
  apply Prim2SF_inj. rewrite add_spec.
  change (Prim2SF nan) with S754_nan. by destruct (Prim2SF a).
Qed.

Lemma foldl_stays_nan (g : float -> nat -> float) (l : list nat) :
  (forall k, g nan k = nan) -> foldl g nan l = nan.
Proof. intros Hg. induction l as [|k l IH]; simpl; [done|]. by rewrite Hg. Qed.

Lemma row_sum_nan (n : nat) (x Mr : vec) (i j : nat) :
  (j < n)%nat -> x !! j = Some nan -> row_sum n x Mr i = nan.
Proof.
  intros Hj Hx. unfold row_sum.
  assert (Hs : seq 0 n = seq 0 j ++ j :: seq (Datatypes.S j) (n - Datatypes.S j)).
  { replace n with (j + Datatypes.S (n - Datatypes.S j))%nat at 1 by lia.
    by rewrite seq_app. }
  rewrite Hs, foldl_app. simpl.
  rewrite (nth_Some _ _ _ Hx), float_mul_nan_l, float_add_nan_r.
  apply foldl_stays_nan. intros k. apply float_add_nan_l.
Qed.

End RotationNaN.

(** X15.  Rotation spreads a NaN: when one of the first [nx] coordinates
    of [x] is NaN, each of the first [nx] coordinates that [rotatefunc]
    returns is NaN, whatever the matrix, since every row sum goes through
    that coordinate. *)
Theorem rotatefunc_spreads_nan (x Mr : vec) (nx : Z) (j : nat) :
  nx <= Z.of_nat (length x) ->
  nx * nx <= Z.of_nat (length Mr) ->
  Z.of_nat j < nx ->
  x !! j = Some nan ->
  rotatefunc x Mr nx
  = Ok (replicate (Z.to_nat nx) nan ++ drop (Z.to_nat nx) x).
Proof.
  intros Hx HMr Hj Hnan. rewrite rotatefunc_ok by nia.
  unfold rotated, prefix_map. do 2 f_equal.
  apply list_eq. intros i. rewrite list_lookup_fmap.
  destruct (decide (i < Z.to_nat nx)%nat) as [Hi|Hi].
  - rewrite lookup_seq_lt, lookup_replicate_2 by done. simpl.
    f_equal. apply (row_sum_nan _ _ _ _ j); [lia|done].
  - rewrite lookup_seq_ge by lia. symmetry.
    apply lookup_ge_None_2. rewrite length_replicate. lia.
Qed.

Lemma rotatefunc_spreads_nan_witness :
  rotatefunc [1; nan; 5]%float [1; 0; 0; 1]%float 2
  = Ok [nan; nan; 5]%float.
Proof.
  apply (rotatefunc_spreads_nan [1; nan; 5]%float [1; 0; 0; 1]%float 2 1);
    (reflexivity || (simpl; lia)).
Defined.

(** ** The loaders on a short file *)


